(** * A shallow embedding of the SDF mesh-generation core (SDF.Cpp)

    Conventions of the embedding.

    - A C++ [double] is a real number ([R]): the development reasons about
      the arithmetic the code writes down, not about rounding, infinities
      or NaN.  [std::sqrt], [std::cos], [std::sin], [std::acos] are the
      functions of the same name on [R]; [std::abs] is [Rabs].
    - A C++ [int] is an integer ([Z]); the sizes met here stay far from the
      limits of [int], and signed overflow is not modelled.
    - [std::vector<T>] is [list T].  Reading [v[i]] with [i] outside the
      vector is undefined behaviour in C++; the embedding makes it explicit:
      every computation that may do so lives in the [option] monad and
      yields [None] there.
    - A function that the interface documents as raising an error returns
      an [outcome]; the source has no [throw], so every such function is
      written with [Returned] only. *)

From Stdlib Require Import Reals Lra Lia ZArith List Bool RNsatz.
Import ListNotations.

Open Scope R_scope.

(** ** Undefined behaviour and raised errors *)

Definition bind {A B : Type} (m : option A) (k : A -> option B) : option B :=
  match m with
  | Some a => k a
  | None => None
  end.

Notation "x <- m ;; k" := (bind m (fun x => k))
  (at level 61, m at next level, right associativity).

Inductive error : Type :=
| ArgumentError
| IOError
| EvaluationError.

Inductive outcome (A : Type) : Type :=
| Returned (a : A)
| Raised (e : error).

Arguments Returned {A} a.
Arguments Raised {A} e.

(** [v[i]] on a [std::vector]. *)
Definition at_ {A : Type} (v : list A) (i : nat) : option A := nth_error v i.

(** [for (size_t i = 0; i < n; ++i) result.push_back(body(i));] *)
Fixpoint push_each {A : Type} (body : nat -> option A) (idx : list nat)
  : option (list A) :=
  match idx with
  | [] => Some []
  | i :: rest =>
      r <- body i ;;
      rs <- push_each body rest ;;
      Some (r :: rs)
  end.

Definition for_index {A : Type} (n : nat) (body : nat -> option A)
  : option (list A) :=
  push_each body (seq 0 n).

(** ** <algorithm> and <cmath> *)

(** [std::min(a, b)] is [(b < a) ? b : a]; [std::max(a, b)] is
    [(a < b) ? b : a]. *)
Definition std_min (a b : R) : R := if Rlt_dec b a then b else a.
Definition std_max (a b : R) : R := if Rlt_dec a b then b else a.

(** The file-local [clamp] template of SDF3.cpp, Operations.cpp and
    MeshGenerator.cpp. *)
Definition clamp (value min max : R) : R := std_max min (std_min value max).

(** [std::cbrt]. *)
Definition cbrt (v : R) : R :=
  if Rlt_dec 0 v then Rpower v (/ 3)
  else if Rlt_dec v 0 then - Rpower (- v) (/ 3)
  else 0.

(** [std::round]: to the nearest integer, halves away from zero. *)
Definition std_round (v : R) : R :=
  if Rle_dec 0 v then IZR (Zfloor (v + 0.5))
  else - IZR (Zfloor (- v + 0.5)).

(** ** Vector3.h *)

Module Vector3.

Record t : Type := mk { x : R; y : R; z : R }.

(** [Vector3()] and [Vector3(double value)]. *)
Definition zero : t := mk 0 0 0.
Definition splat (value : R) : t := mk value value value.

Definition op_add (a b : t) : t := mk (x a + x b) (y a + y b) (z a + z b).
Definition op_sub (a b : t) : t := mk (x a - x b) (y a - y b) (z a - z b).
Definition op_mul (a : t) (scalar : R) : t :=
  mk (x a * scalar) (y a * scalar) (z a * scalar).
Definition op_mulv (a b : t) : t := mk (x a * x b) (y a * y b) (z a * z b).
Definition op_div (a : t) (scalar : R) : t :=
  mk (x a / scalar) (y a / scalar) (z a / scalar).
Definition op_divv (a b : t) : t := mk (x a / x b) (y a / y b) (z a / z b).
Definition op_neg (a : t) : t := mk (- x a) (- y a) (- z a).

Definition length (a : t) : R := sqrt (x a * x a + y a * y a + z a * z a).
Definition lengthSquared (a : t) : R := x a * x a + y a * y a + z a * z a.

Definition normalized (a : t) : t :=
  let len := length a in
  if Rlt_dec len 1e-10 then mk 0 0 0 else op_div a len.

Definition dot (a b : t) : R := x a * x b + y a * y b + z a * z b.

Definition cross (a b : t) : t :=
  mk (y a * z b - z a * y b)
     (z a * x b - x a * z b)
     (x a * y b - y a * x b).

Definition min (a b : t) : t :=
  mk (std_min (x a) (x b)) (std_min (y a) (y b)) (std_min (z a) (z b)).
Definition max (a b : t) : t :=
  mk (std_max (x a) (x b)) (std_max (y a) (y b)) (std_max (z a) (z b)).
Definition abs (v : t) : t := mk (Rabs (x v)) (Rabs (y v)) (Rabs (z v)).

End Vector3.

Declare Scope vec_scope.
Delimit Scope vec_scope with vec.
Bind Scope vec_scope with Vector3.t.
Infix "+" := Vector3.op_add : vec_scope.
Infix "-" := Vector3.op_sub : vec_scope.
Notation "a *^ s" := (Vector3.op_mul a s) (at level 40, left associativity).
Notation "a /^ s" := (Vector3.op_div a s) (at level 40, left associativity).

(** Constants.h *)
Definition ORIGIN : Vector3.t := Vector3.mk 0 0 0.
Definition Z_axis : Vector3.t := Vector3.mk 0 0 1.

(** ** SDF3.h, SDF3.cpp *)

Module SDF3.

Definition Function : Type := Vector3.t -> R.
Definition VectorFunction : Type := list Vector3.t -> option (list R).

Record t : Type := mk { vecFunc_ : VectorFunction; k_ : R }.

(** [SDF3::SDF3()] *)
Definition default : t := mk (fun _ => Some []) 0.

(** [SDF3::wrapFunction] *)
Definition wrapFunction (func : Function) : VectorFunction :=
  fun points => Some (map func points).

(** [SDF3::SDF3(Function)] and [SDF3::SDF3(VectorFunction)] *)
Definition of_function (func : Function) : t := mk (wrapFunction func) 0.
Definition of_vector (vecFunc : VectorFunction) : t := mk vecFunc 0.

(** [SDF3::operator()] *)
Definition op_call (self : t) (point : Vector3.t) : option R :=
  result <- vecFunc_ self [point] ;;
  match result with
  | [] => Some 0
  | r :: _ => Some r
  end.

(** [SDF3::evaluate] *)
Definition evaluate (self : t) (points : list Vector3.t) : option (list R) :=
  vecFunc_ self points.

Definition getK (self : t) : R := k_ self.
Definition getFunction (self : t) : VectorFunction := vecFunc_ self.

(** [SDF3::k] *)
Definition k (self : t) (k_value : R) : t := mk (vecFunc_ self) k_value.

(** The per-index expressions of the three boolean operators. *)
Definition hard_union (a b : R) : R := std_min a b.
Definition smooth_union (k a b : R) : R :=
  let h := clamp (0.5 + 0.5 * (b - a) / k) 0 1 in
  let d := b * (1 - h) + a * h - k * h * (1 - h) in
  d.

Definition hard_intersection (a b : R) : R := std_max a b.
Definition smooth_intersection (k a b : R) : R :=
  let h := clamp (0.5 - 0.5 * (b - a) / k) 0 1 in
  let d := b * (1 - h) + a * h + k * h * (1 - h) in
  d.

Definition hard_difference (a b : R) : R := std_max a (- b).
Definition smooth_difference (k a b : R) : R :=
  let h := clamp (0.5 - 0.5 * (a + b) / k) 0 1 in
  let d := a * (1 - h) + (- b) * h + k * h * (1 - h) in
  d.

(** The closure shared by the three operators: evaluate both operands on
    the whole batch, then combine index by index, [hard] when [k == 0.0]
    and [smooth k] otherwise. *)
Definition combine (hard : R -> R -> R) (smooth : R -> R -> R -> R)
    (thisFunc otherFunc : VectorFunction) (k : R) : VectorFunction :=
  fun points =>
    a <- thisFunc points ;;
    b <- otherFunc points ;;
    if Req_dec_T k 0 then
      for_index (List.length points) (fun i =>
        ai <- at_ a i ;; bi <- at_ b i ;; Some (hard ai bi))
    else
      for_index (List.length points) (fun i =>
        ai <- at_ a i ;; bi <- at_ b i ;; Some (smooth k ai bi)).

(** [SDF3::operator|] *)
Definition op_or (self other : t) : t :=
  let k := std_max (k_ self) (k_ other) in
  of_vector (combine hard_union smooth_union (vecFunc_ self) (vecFunc_ other) k).

(** [SDF3::operator&] *)
Definition op_and (self other : t) : t :=
  let k := std_max (k_ self) (k_ other) in
  of_vector (combine hard_intersection smooth_intersection
               (vecFunc_ self) (vecFunc_ other) k).

(** [SDF3::operator-] *)
Definition op_sub (self other : t) : t :=
  let k := std_max (k_ self) (k_ other) in
  of_vector (combine hard_difference smooth_difference
               (vecFunc_ self) (vecFunc_ other) k).

End SDF3.

(** ** Operations.h, Operations.cpp *)

Module Operations.

(** [unionOp], [intersection], [difference] *)
Definition unionOp (a b : SDF3.t) (k : R) : SDF3.t :=
  if Rlt_dec 0 k then SDF3.op_or (SDF3.k a k) (SDF3.k b k)
  else SDF3.op_or a b.

Definition intersection (a b : SDF3.t) (k : R) : SDF3.t :=
  if Rlt_dec 0 k then SDF3.op_and (SDF3.k a k) (SDF3.k b k)
  else SDF3.op_and a b.

Definition difference (a b : SDF3.t) (k : R) : SDF3.t :=
  if Rlt_dec 0 k then SDF3.op_sub (SDF3.k a k) (SDF3.k b k)
  else SDF3.op_sub a b.

(** [translate] *)
Definition translate (sdf : SDF3.t) (offset : Vector3.t) : SDF3.t :=
  let func := SDF3.getFunction sdf in
  SDF3.of_vector (fun points =>
    let translated := map (fun p => (p - offset)%vec) points in
    func translated).

(** [scale(const SDF3&, double)] *)
Definition scale (sdf : SDF3.t) (factor : R) : SDF3.t :=
  let func := SDF3.getFunction sdf in
  SDF3.of_vector (fun points =>
    let scaled := map (fun p => p /^ factor) points in
    result <- func scaled ;;
    Some (map (fun r => r * factor) result)).

(** [scale(const SDF3&, const Vector3&)] *)
Definition scale_v (sdf : SDF3.t) (factor : Vector3.t) : SDF3.t :=
  let func := SDF3.getFunction sdf in
  SDF3.of_vector (fun points =>
    let scaled := map (fun p => Vector3.op_divv p factor) points in
    func scaled).

(** The [rotatePoint] lambda of [rotate]. *)
Definition rotatePoint (a : Vector3.t) (c s t : R) (p : Vector3.t)
  : Vector3.t :=
  let ax := Vector3.x a in
  let ay := Vector3.y a in
  let az := Vector3.z a in
  let px := Vector3.x p in
  let py := Vector3.y p in
  let pz := Vector3.z p in
  let x := px * (t * ax * ax + c) +
           py * (t * ax * ay + s * az) +
           pz * (t * ax * az - s * ay) in
  let y := px * (t * ax * ay - s * az) +
           py * (t * ay * ay + c) +
           pz * (t * ay * az + s * ax) in
  let z := px * (t * ax * az + s * ay) +
           py * (t * ay * az - s * ax) +
           pz * (t * az * az + c) in
  Vector3.mk x y z.

(** [rotate] *)
Definition rotate (sdf : SDF3.t) (angle : R) (axis : Vector3.t)
  : outcome SDF3.t :=
  let a := Vector3.normalized axis in
  let c := cos angle in
  let s := sin angle in
  let t := 1 - c in
  let func := SDF3.getFunction sdf in
  Returned (SDF3.of_vector (fun points =>
    let rotated := map (rotatePoint a c s t) points in
    func rotated)).

(** [orient] *)
Definition orient (sdf : SDF3.t) (targetAxis : Vector3.t) : outcome SDF3.t :=
  let src := Z_axis in
  let dst := Vector3.normalized targetAxis in
  if Rlt_dec (Vector3.lengthSquared (src - dst)%vec) 1e-10 then
    Returned sdf
  else if Rlt_dec (Vector3.lengthSquared (src + dst)%vec) 1e-10 then
    let perp := if Rlt_dec (Rabs (Vector3.x src)) 0.9
                then Vector3.mk 1 0 0 else Vector3.mk 0 1 0 in
    rotate sdf PI perp
  else
    let axis := Vector3.normalized (Vector3.cross src dst) in
    let angle := acos (clamp (Vector3.dot src dst) (-1) 1) in
    rotate sdf angle axis.

(** [dilate], [erode], [shell] *)
Definition dilate (sdf : SDF3.t) (r : R) : SDF3.t :=
  let func := SDF3.getFunction sdf in
  SDF3.of_vector (fun points =>
    result <- func points ;;
    Some (map (fun d => d - r) result)).

Definition erode (sdf : SDF3.t) (r : R) : SDF3.t := dilate sdf (- r).

Definition shell (sdf : SDF3.t) (thickness : R) : SDF3.t :=
  let func := SDF3.getFunction sdf in
  SDF3.of_vector (fun points =>
    result <- func points ;;
    Some (map (fun d => Rabs d - thickness) result)).

(** [twist] *)
Definition twist (sdf : SDF3.t) (k : R) : SDF3.t :=
  let func := SDF3.getFunction sdf in
  SDF3.of_vector (fun points =>
    let twisted := map (fun p =>
      let c := cos (k * Vector3.z p) in
      let s := sin (k * Vector3.z p) in
      Vector3.mk (c * Vector3.x p - s * Vector3.y p)
                 (s * Vector3.x p + c * Vector3.y p)
                 (Vector3.z p)) points in
    func twisted).

(** [bend] *)
Definition bend (sdf : SDF3.t) (k : R) : SDF3.t :=
  let func := SDF3.getFunction sdf in
  SDF3.of_vector (fun points =>
    let bent := map (fun p =>
      let c := cos (k * Vector3.x p) in
      let s := sin (k * Vector3.x p) in
      Vector3.mk (c * Vector3.x p - s * Vector3.y p)
                 (s * Vector3.x p + c * Vector3.y p)
                 (Vector3.z p)) points in
    func bent).

(** The query point of [elongate] for [p]. *)
Definition elongatePoint (h p : Vector3.t) : Vector3.t :=
  let q := (Vector3.abs p - h)%vec in
  Vector3.mk
    (std_max (Vector3.x q) 0 * (if Rge_dec (Vector3.x p) 0 then 1 else -1))
    (std_max (Vector3.y q) 0 * (if Rge_dec (Vector3.y p) 0 then 1 else -1))
    (std_max (Vector3.z q) 0 * (if Rge_dec (Vector3.z p) 0 then 1 else -1)).

(** The exterior correction of [elongate] for [p]. *)
Definition elongateCorrection (h p : Vector3.t) : R :=
  let q := (Vector3.abs p - h)%vec in
  let maxQ := Vector3.max q (Vector3.mk 0 0 0) in
  Vector3.length maxQ.

(** [for (size_t i = 0; i < points.size(); ++i) result[i] += corr(points[i]);]
    with one correction per point: entries of [result] beyond the points
    stay as they are, a missing entry is read out of range. *)
Fixpoint addEach (corrections result : list R) : option (list R) :=
  match corrections, result with
  | [], rest => Some rest
  | c :: cs, r :: rs =>
      rest <- addEach cs rs ;;
      Some ((r + c) :: rest)
  | _ :: _, [] => None
  end.

(** [elongate] *)
Definition elongate (sdf : SDF3.t) (h : Vector3.t) : SDF3.t :=
  let func := SDF3.getFunction sdf in
  SDF3.of_vector (fun points =>
    let elongated := map (elongatePoint h) points in
    result <- func elongated ;;
    addEach (map (elongateCorrection h) points) result).

(** One axis of [repeatOp]. *)
Definition repeatAxis (p spacing count : R) : R :=
  if Rlt_dec count 1e8 then
    let c := std_round (p / spacing) in
    let c' := clamp c (- count) count in
    p - c' * spacing
  else
    p - std_round (p / spacing) * spacing.

(** [repeatOp] *)
Definition repeatOp (sdf : SDF3.t) (spacing count : Vector3.t) : SDF3.t :=
  let func := SDF3.getFunction sdf in
  SDF3.of_vector (fun points =>
    let repeated := map (fun p =>
      Vector3.mk
        (repeatAxis (Vector3.x p) (Vector3.x spacing) (Vector3.x count))
        (repeatAxis (Vector3.y p) (Vector3.y spacing) (Vector3.y count))
        (repeatAxis (Vector3.z p) (Vector3.z spacing) (Vector3.z count)))
      points in
    func repeated).

(** [blend] *)
Definition blend (a b : SDF3.t) (k : R) : SDF3.t :=
  let funcA := SDF3.getFunction a in
  let funcB := SDF3.getFunction b in
  SDF3.of_vector (fun points =>
    ra <- funcA points ;;
    rb <- funcB points ;;
    for_index (List.length points) (fun i =>
      rai <- at_ ra i ;; rbi <- at_ rb i ;;
      Some (rai * (1 - k) + rbi * k))).

(** The copy of the points that [circularArray] queries for index [i]. *)
Definition circularCopy (count : Z) (offset : R) (i : Z)
    (points : list Vector3.t) : list Vector3.t :=
  let angle := 2 * PI * IZR i / IZR count in
  let c := cos angle in
  let s := sin angle in
  map (fun p =>
    let x := c * (Vector3.x p - offset) - s * Vector3.y p + offset in
    let y := s * (Vector3.x p - offset) + c * Vector3.y p in
    Vector3.mk x y (Vector3.z p)) points.

(** The loop [for (int i = 0; i < count; ++i)] of [circularArray] over the
    remaining indices, with [result] as it stands. *)
Fixpoint circularLoop (func : SDF3.VectorFunction) (count : Z) (offset : R)
    (points : list Vector3.t) (indices : list Z) (result : list R)
  : option (list R) :=
  match indices with
  | [] => Some result
  | i :: rest =>
      let transformed := circularCopy count offset i points in
      distances <- func transformed ;;
      result' <- for_index (List.length points) (fun j =>
                   rj <- at_ result j ;; dj <- at_ distances j ;;
                   Some (std_min rj dj)) ;;
      circularLoop func count offset points rest result'
  end.

(** [circularArray] *)
Definition circularArray (sdf : SDF3.t) (count : Z) (offset : R) : SDF3.t :=
  let func := SDF3.getFunction sdf in
  SDF3.of_vector (fun points =>
    let result := repeat 1e9 (List.length points) in
    circularLoop func count offset points
      (map Z.of_nat (seq 0 (Z.to_nat count))) result).

End Operations.

(** ** Primitives.h, Primitives.cpp *)

Module Primitives.

(** The file-local [max(const Vector3&, double)]. *)
Definition max_scalar (v : Vector3.t) (d : R) : Vector3.t :=
  Vector3.mk (std_max (Vector3.x v) d) (std_max (Vector3.y v) d)
             (std_max (Vector3.z v) d).

(** [sphere(double, const Vector3&)] and [sphere(double)] *)
Definition sphere (radius : R) (center : Vector3.t) : SDF3.t :=
  SDF3.of_function (fun p => Vector3.length (p - center)%vec - radius).

Definition sphere_r (radius : R) : SDF3.t := sphere radius ORIGIN.

(** The distance expression shared by [box] and [roundedBox]. *)
Definition boxDistance (q : Vector3.t) : R :=
  Vector3.length (max_scalar q 0)
  + std_min (std_max (Vector3.x q) (std_max (Vector3.y q) (Vector3.z q))) 0.

(** [box(const Vector3&, const Vector3&)] and [box(const Vector3&)] *)
Definition box (size center : Vector3.t) : SDF3.t :=
  let halfSize := size *^ 0.5 in
  SDF3.of_function (fun p =>
    let q := (Vector3.abs (p - center) - halfSize)%vec in
    boxDistance q).

Definition box_s (size : Vector3.t) : SDF3.t := box size ORIGIN.

(** [roundedBox] *)
Definition roundedBox (size : Vector3.t) (radius : R) : SDF3.t :=
  let halfSize := (size *^ 0.5 - Vector3.splat radius)%vec in
  SDF3.of_function (fun p =>
    let q := (Vector3.abs p - halfSize)%vec in
    boxDistance q - radius).

(** [torus] *)
Definition torus (r1 r2 : R) : SDF3.t :=
  SDF3.of_function (fun p =>
    let qx := sqrt (Vector3.x p * Vector3.x p + Vector3.y p * Vector3.y p)
              - r1 in
    sqrt (qx * qx + Vector3.z p * Vector3.z p) - r2).


(** [plane(const Vector3&, const Vector3&)] and [plane()] *)
Definition plane (normal point : Vector3.t) : SDF3.t :=
  let n := Vector3.normalized normal in
  SDF3.of_function (fun p => Vector3.dot (p - point)%vec n).

Definition plane_default : SDF3.t := plane Z_axis ORIGIN.

(** [slab] *)
Definition slab (x0 x1 y0 y1 z0 z1 : R) : SDF3.t :=
  SDF3.of_function (fun p =>
    let px := Vector3.x p in
    let py := Vector3.y p in
    let pz := Vector3.z p in
    let dx := std_max (std_max (x0 - px) (px - x1)) 0 in
    let dy := std_max (std_max (y0 - py) (py - y1)) 0 in
    let dz := std_max (std_max (z0 - pz) (pz - z1)) 0 in
    let exterior := sqrt (dx * dx + dy * dy + dz * dz) in
    let ix := if Rge_dec px x0 then
                if Rle_dec px x1 then 0
                else std_min (Rabs (x0 - px)) (Rabs (x1 - px))
              else std_min (Rabs (x0 - px)) (Rabs (x1 - px)) in
    let iy := if Rge_dec py y0 then
                if Rle_dec py y1 then 0
                else std_min (Rabs (y0 - py)) (Rabs (y1 - py))
              else std_min (Rabs (y0 - py)) (Rabs (y1 - py)) in
    let iz := if Rge_dec pz z0 then
                if Rle_dec pz z1 then 0
                else std_min (Rabs (z0 - pz)) (Rabs (z1 - pz))
              else std_min (Rabs (z0 - pz)) (Rabs (z1 - pz)) in
    let interior := - std_min (std_min ix iy) iz in
    if Rgt_dec exterior 0 then exterior else interior).

End Primitives.

(** ** MarchingCubes.h, MarchingCubes.cpp *)

Module MarchingCubes.

Open Scope Z_scope.

(** [std::array<int, 3>] *)
Record dims_t : Type := Dims { d0 : Z; d1 : Z; d2 : Z }.

(** [v[i]] with an [int] index. *)
Definition at_int {A : Type} (v : list A) (i : Z) : option A :=
  if i <? 0 then None else nth_error v (Z.to_nat i).

(** [for (int i = 0; i < n; ++i)] *)
Definition range (n : Z) : list Z := map Z.of_nat (seq 0 (Z.to_nat n)).

(** [MarchingCubes::vertexInterp] *)
Definition vertexInterp (isolevel : R) (p1 p2 : Vector3.t) (v1 v2 : R)
  : Vector3.t :=
  if Rlt_dec (Rabs (isolevel - v1)) 1e-10 then p1
  else if Rlt_dec (Rabs (isolevel - v2)) 1e-10 then p2
  else if Rlt_dec (Rabs (v1 - v2)) 1e-10 then p1
  else
    let mu := ((isolevel - v1) / (v2 - v1))%R in
    (p1 + (p2 - p1) *^ mu)%vec.

(** Which [return] statement of [vertexInterp] is reached: the three
    early returns, or the last one, the only one that divides. *)
Inductive interp_path : Type :=
| ReturnP1
| ReturnP2
| ReturnP1Flat
| ReturnInterpolated.

Definition interpPath (isolevel v1 v2 : R) : interp_path :=
  if Rlt_dec (Rabs (isolevel - v1)) 1e-10 then ReturnP1
  else if Rlt_dec (Rabs (isolevel - v2)) 1e-10 then ReturnP2
  else if Rlt_dec (Rabs (v1 - v2)) 1e-10 then ReturnP1Flat
  else ReturnInterpolated.

(** [MarchingCubes::getIndex] *)
Definition getIndex (x y z : Z) (dims : dims_t) : Z :=
  x + y * d0 dims + z * d0 dims * d1 dims.

(** The rows of [triTable] that the source spells out: cases 0 to 15 and
    one row of [-1] commented as case 16. *)
Definition triTable_listed : list (list Z) :=
  [ [-1; -1; -1; -1; -1; -1; -1; -1; -1; -1; -1; -1; -1; -1; -1; -1];
    [0; 8; 3; -1; -1; -1; -1; -1; -1; -1; -1; -1; -1; -1; -1; -1];
    [0; 1; 9; -1; -1; -1; -1; -1; -1; -1; -1; -1; -1; -1; -1; -1];
    [1; 8; 3; 9; 8; 1; -1; -1; -1; -1; -1; -1; -1; -1; -1; -1];
    [1; 2; 10; -1; -1; -1; -1; -1; -1; -1; -1; -1; -1; -1; -1; -1];
    [0; 8; 3; 1; 2; 10; -1; -1; -1; -1; -1; -1; -1; -1; -1; -1];
    [9; 2; 10; 0; 2; 9; -1; -1; -1; -1; -1; -1; -1; -1; -1; -1];
    [2; 8; 3; 2; 10; 8; 10; 9; 8; -1; -1; -1; -1; -1; -1; -1];
    [3; 11; 2; -1; -1; -1; -1; -1; -1; -1; -1; -1; -1; -1; -1; -1];
    [0; 11; 2; 8; 11; 0; -1; -1; -1; -1; -1; -1; -1; -1; -1; -1];
    [1; 9; 0; 2; 3; 11; -1; -1; -1; -1; -1; -1; -1; -1; -1; -1];
    [1; 11; 2; 1; 9; 11; 9; 8; 11; -1; -1; -1; -1; -1; -1; -1];
    [3; 10; 1; 11; 10; 3; -1; -1; -1; -1; -1; -1; -1; -1; -1; -1];
    [0; 10; 1; 0; 8; 10; 8; 11; 10; -1; -1; -1; -1; -1; -1; -1];
    [3; 9; 0; 3; 11; 9; 11; 10; 9; -1; -1; -1; -1; -1; -1; -1];
    [9; 8; 10; 10; 8; 11; -1; -1; -1; -1; -1; -1; -1; -1; -1; -1];
    [-1; -1; -1; -1; -1; -1; -1; -1; -1; -1; -1; -1; -1; -1; -1; -1] ].

(** [const int MarchingCubes::triTable[256][16]]: the initialiser lists
    17 rows; aggregate initialisation fills the other 239 rows with 0. *)
Definition triTable : list (list Z) :=
  triTable_listed ++ repeat (repeat 0 16%nat) (256 - 17)%nat.

(** [edgeVertices[e]] with [e] read from the table. *)
Definition edgeVertex (edgeVertices : list Vector3.t) (e : Z)
  : option Vector3.t :=
  at_int edgeVertices e.

(** [for (int i = 0; triIndices[i] != -1; i += 3)]: [triIndices] is one
    row of 16 entries, and a read at [i >= 16] leaves the row. *)
Fixpoint emitTriangles (fuel : nat) (triIndices : list Z)
    (edgeVertices : list Vector3.t) (i : nat) : option (list Vector3.t) :=
  match fuel with
  | O => None
  | S fuel' =>
      t0 <- at_ triIndices i ;;
      if t0 =? -1 then Some []
      else
        v0 <- edgeVertex edgeVertices t0 ;;
        t1 <- at_ triIndices (i + 1) ;;
        v1 <- edgeVertex edgeVertices t1 ;;
        t2 <- at_ triIndices (i + 2) ;;
        v2 <- edgeVertex edgeVertices t2 ;;
        rest <- emitTriangles fuel' triIndices edgeVertices (i + 3) ;;
        Some (v0 :: v1 :: v2 :: rest)
  end.

(** The loop [for (int i = 0; i < 8; ++i) if (values[i] < level)
    cubeIndex |= (1 << i);]. *)
Fixpoint cubeIndexFrom (values : list R) (level : R) (i : Z) (cubeIndex : Z)
  : Z :=
  match values with
  | [] => cubeIndex
  | v :: rest =>
      cubeIndexFrom rest level (i + 1)
        (if Rlt_dec v level then Z.lor cubeIndex (Z.shiftl 1 i)
         else cubeIndex)
  end.

(** The body of the innermost loop of [extractSurface] for the cell at
    [(x, y, z)]: the triangles that the cell appends. *)
Definition cell (volume : list R) (dims : dims_t) (level : R) (x y z : Z)
  : option (list Vector3.t) :=
  let V (a b c : Z) := Vector3.mk (IZR a) (IZR b) (IZR c) in
  let c0 := V x y z in
  let c1 := V (x + 1) y z in
  let c2 := V (x + 1) (y + 1) z in
  let c3 := V x (y + 1) z in
  let c4 := V x y (z + 1) in
  let c5 := V (x + 1) y (z + 1) in
  let c6 := V (x + 1) (y + 1) (z + 1) in
  let c7 := V x (y + 1) (z + 1) in
  v0 <- at_int volume (getIndex x y z dims) ;;
  v1 <- at_int volume (getIndex (x + 1) y z dims) ;;
  v2 <- at_int volume (getIndex (x + 1) (y + 1) z dims) ;;
  v3 <- at_int volume (getIndex x (y + 1) z dims) ;;
  v4 <- at_int volume (getIndex x y (z + 1) dims) ;;
  v5 <- at_int volume (getIndex (x + 1) y (z + 1) dims) ;;
  v6 <- at_int volume (getIndex (x + 1) (y + 1) (z + 1) dims) ;;
  v7 <- at_int volume (getIndex x (y + 1) (z + 1) dims) ;;
  let cubeIndex := cubeIndexFrom [v0; v1; v2; v3; v4; v5; v6; v7] level 0 0 in
  if (cubeIndex =? 0) || (cubeIndex =? 255) then Some []
  else
    let edgeVertices :=
      [ vertexInterp level c0 c1 v0 v1;
        vertexInterp level c1 c2 v1 v2;
        vertexInterp level c2 c3 v2 v3;
        vertexInterp level c3 c0 v3 v0;
        vertexInterp level c4 c5 v4 v5;
        vertexInterp level c5 c6 v5 v6;
        vertexInterp level c6 c7 v6 v7;
        vertexInterp level c7 c4 v7 v4;
        vertexInterp level c0 c4 v0 v4;
        vertexInterp level c1 c5 v1 v5;
        vertexInterp level c2 c6 v2 v6;
        vertexInterp level c3 c7 v3 v7 ] in
    triIndices <- at_int triTable cubeIndex ;;
    emitTriangles (S (List.length triIndices)) triIndices edgeVertices 0.

(** Run [body] on every element in order and concatenate what it appends. *)
Fixpoint appendAll {A B : Type} (body : A -> option (list B)) (l : list A)
  : option (list B) :=
  match l with
  | [] => Some []
  | a :: rest =>
      here <- body a ;;
      after <- appendAll body rest ;;
      Some (here ++ after)
  end.

(** [MarchingCubes::extractSurface] *)
Definition extractSurface (volume : list R) (dims : dims_t) (level : R)
  : option (list Vector3.t) :=
  appendAll (fun z =>
    appendAll (fun y =>
      appendAll (fun x => cell volume dims level x y z)
        (range (d0 dims - 1)))
      (range (d1 dims - 1)))
    (range (d2 dims - 1)).

End MarchingCubes.

(** ** MeshGenerator.h, MeshGenerator.cpp *)

Module MeshGenerator.

Record Options : Type := mkOptions {
  step : R;
  boundsMin : Vector3.t;
  boundsMax : Vector3.t;
  customBounds : bool;
  samples : Z;
  workers : Z;
  batchSize : Z;
  verbose : bool;
  sparse : bool
}.

(** The member initialisers of [struct Options]. *)
Definition defaultOptions : Options :=
  mkOptions 0 Vector3.zero Vector3.zero false 4194304 0 32 true true.

(** *** estimateBounds *)

(** [const int samples = 16;] *)
Definition estimateSamples : nat := 16.

(** The three nested loops that fill [points], [z] outermost. *)
Definition gridPoints (boundsMin step : Vector3.t) : list Vector3.t :=
  flat_map (fun z =>
    flat_map (fun y =>
      map (fun x =>
        Vector3.mk (Vector3.x boundsMin + INR x * Vector3.x step)
                   (Vector3.y boundsMin + INR y * Vector3.y step)
                   (Vector3.z boundsMin + INR z * Vector3.z step))
        (seq 0 estimateSamples))
      (seq 0 estimateSamples))
    (seq 0 estimateSamples).

(** The variables [newMin], [newMax], [foundAny] of one iteration. *)
Record near_t : Type := Near {
  newMin : Vector3.t;
  newMax : Vector3.t;
  foundAny : bool
}.

(** [for (size_t i = 0; i < points.size(); ++i) if (std::abs(values[i]) <=
    threshold) ...], from index [i] on. *)
Fixpoint findNear (points : list Vector3.t) (values : list R) (i : nat)
    (threshold : R) (st : near_t) : option near_t :=
  match points with
  | [] => Some st
  | p :: rest =>
      v <- at_ values i ;;
      findNear rest values (S i) threshold
        (if Rle_dec (Rabs v) threshold
         then Near (Vector3.min (newMin st) p) (Vector3.max (newMax st) p) true
         else st)
  end.

(** One pass through the body of the [for] loop after the convergence
    test: sample, evaluate, and replace the box. *)
Definition refineBounds (sdf : SDF3.t) (boundsMin boundsMax : Vector3.t)
  : option (Vector3.t * Vector3.t) :=
  let step := (boundsMax - boundsMin)%vec /^ (INR estimateSamples - 1) in
  let threshold := Vector3.length step / 2 in
  let points := gridPoints boundsMin step in
  values <- SDF3.evaluate sdf points ;;
  st <- findNear points values 0 threshold (Near boundsMax boundsMin false) ;;
  if negb (foundAny st) then
    let center := (boundsMin + boundsMax)%vec *^ 0.5 in
    let size := (boundsMax - boundsMin)%vec in
    Some ((center - size)%vec, (center + size)%vec)
  else
    let margin := step *^ 0.5 in
    Some ((newMin st - margin)%vec, (newMax st + margin)%vec).

(** What the loop leaves behind: the box and how many times the loop
    body was entered. *)
Record estimate_t : Type := Estimate {
  estMin : Vector3.t;
  estMax : Vector3.t;
  iterations : nat
}.

(** [for (int iteration = 0; iteration < 32; ++iteration)] with
    [remaining = 32 - iteration]. *)
Fixpoint estimateLoop (remaining : nat) (sdf : SDF3.t)
    (boundsMin boundsMax : Vector3.t) (prevThreshold : R) (entered : nat)
  : option estimate_t :=
  match remaining with
  | O => Some (Estimate boundsMin boundsMax entered)
  | S remaining' =>
      let step := (boundsMax - boundsMin)%vec /^ (INR estimateSamples - 1) in
      let threshold := Vector3.length step / 2 in
      if Rlt_dec (Rabs (threshold - prevThreshold)) 1e-10 then
        Some (Estimate boundsMin boundsMax (S entered))
      else
        box <- refineBounds sdf boundsMin boundsMax ;;
        estimateLoop remaining' sdf (fst box) (snd box) threshold (S entered)
  end.

Definition estimateRun (sdf : SDF3.t) : option estimate_t :=
  estimateLoop 32 sdf (Vector3.mk (-10) (-10) (-10)) (Vector3.mk 10 10 10)
    (-1) 0.

(** [MeshGenerator::estimateBounds] *)
Definition estimateBounds (sdf : SDF3.t) : option (Vector3.t * Vector3.t) :=
  e <- estimateRun sdf ;;
  Some (estMin e, estMax e).

(** *** canSkipBatch *)

(** [for (double v : values) { if (v < 0) allPositive = false;
    if (v > 0) allNegative = false; }] *)
Fixpoint cornerSigns (values : list R) (allPositive allNegative : bool)
  : bool * bool :=
  match values with
  | [] => (allPositive, allNegative)
  | v :: rest =>
      cornerSigns rest
        (if Rlt_dec v 0 then false else allPositive)
        (if Rgt_dec v 0 then false else allNegative)
  end.

Definition batchCorners (batchMin batchMax : Vector3.t) : list Vector3.t :=
  let mn := batchMin in
  let mx := batchMax in
  [ Vector3.mk (Vector3.x mn) (Vector3.y mn) (Vector3.z mn);
    Vector3.mk (Vector3.x mx) (Vector3.y mn) (Vector3.z mn);
    Vector3.mk (Vector3.x mn) (Vector3.y mx) (Vector3.z mn);
    Vector3.mk (Vector3.x mx) (Vector3.y mx) (Vector3.z mn);
    Vector3.mk (Vector3.x mn) (Vector3.y mn) (Vector3.z mx);
    Vector3.mk (Vector3.x mx) (Vector3.y mn) (Vector3.z mx);
    Vector3.mk (Vector3.x mn) (Vector3.y mx) (Vector3.z mx);
    Vector3.mk (Vector3.x mx) (Vector3.y mx) (Vector3.z mx) ].

Definition batchCenter (batchMin batchMax : Vector3.t) : Vector3.t :=
  (batchMin + batchMax)%vec *^ 0.5.

Definition batchRadius (batchMin batchMax : Vector3.t) : R :=
  Vector3.length (batchMax - batchMin)%vec / 2.

(** [MeshGenerator::canSkipBatch] *)
Definition canSkipBatch (sdf : SDF3.t) (batchMin batchMax : Vector3.t)
  : option bool :=
  let center := batchCenter batchMin batchMax in
  let radius := batchRadius batchMin batchMax in
  centerDist <- SDF3.op_call sdf center ;;
  if Rle_dec (Rabs centerDist) radius then Some false
  else
    let corners := batchCorners batchMin batchMax in
    values <- SDF3.evaluate sdf corners ;;
    let signs := cornerSigns values true true in
    Some (fst signs || snd signs).

(** *** generate *)

(** "Calculate step size" *)
Definition chooseStep (options : Options) (boundsMin boundsMax : Vector3.t)
  : R :=
  let step0 := step options in
  let step1 :=
    if Req_dec_T step0 0 then
      if (0 <? samples options)%Z then
        let volume := (Vector3.x boundsMax - Vector3.x boundsMin) *
                      (Vector3.y boundsMax - Vector3.y boundsMin) *
                      (Vector3.z boundsMax - Vector3.z boundsMin) in
        cbrt (volume / IZR (samples options))
      else step0
    else step0 in
  if Req_dec_T step1 0 then 0.1 else step1.

(** [for (int v = 0; v < stop; v += stride)]: the values [v] takes.  The
    loop does not end when [stride <= 0] and [0 < stop]; [fuel] runs out
    and the result is [None]. *)
Fixpoint strided (fuel : nat) (v stop stride : Z) : option (list Z) :=
  if (v <? stop)%Z then
    match fuel with
    | O => None
    | S fuel' =>
        rest <- strided fuel' (v + stride)%Z stop stride ;;
        Some (v :: rest)
    end
  else Some [].

(** [std::tuple<int, int, int, int, int, int>] *)
Record batch_t : Type := Batch {
  bx0 : Z; bx1 : Z; by0 : Z; by1 : Z; bz0 : Z; bz1 : Z
}.

(** "Create batches": three nested strided loops, [z] outermost; an inner
    loop is only run inside an iteration of the loop around it. *)
Definition createBatches (nx ny nz batchSize : Z) : option (list batch_t) :=
  zs <- strided (Z.to_nat nz) 0 (nz - 1) batchSize ;;
  MarchingCubes.appendAll (fun z =>
    ys <- strided (Z.to_nat ny) 0 (ny - 1) batchSize ;;
    MarchingCubes.appendAll (fun y =>
      xs <- strided (Z.to_nat nx) 0 (nx - 1) batchSize ;;
      Some (map (fun x =>
              let x1 := Z.min (x + batchSize) (nx - 1) in
              let y1 := Z.min (y + batchSize) (ny - 1) in
              let z1 := Z.min (z + batchSize) (nz - 1) in
              Batch x x1 y y1 z z1) xs)) ys) zs.

(** The grid points of one batch, [bz] outermost. *)
Definition batchGrid (boundsMin : Vector3.t) (step : R) (b : batch_t)
  : list Vector3.t :=
  let batchNx := (bx1 b - bx0 b + 1)%Z in
  let batchNy := (by1 b - by0 b + 1)%Z in
  let batchNz := (bz1 b - bz0 b + 1)%Z in
  flat_map (fun bz =>
    flat_map (fun by_ =>
      map (fun bx =>
        Vector3.mk (Vector3.x boundsMin + IZR (bx0 b + bx) * step)
                   (Vector3.y boundsMin + IZR (by0 b + by_) * step)
                   (Vector3.z boundsMin + IZR (bz0 b + bz) * step))
        (MarchingCubes.range batchNx))
      (MarchingCubes.range batchNy))
    (MarchingCubes.range batchNz).

(** The body of the loop of [processBatchRange] for one batch: the
    triangles it appends to [localTriangles]. *)
Definition processBatch (sdf : SDF3.t) (options : Options)
    (boundsMin : Vector3.t) (step : R) (b : batch_t)
  : option (list Vector3.t) :=
  let batchMin :=
    Vector3.mk (Vector3.x boundsMin + IZR (bx0 b) * step)
               (Vector3.y boundsMin + IZR (by0 b) * step)
               (Vector3.z boundsMin + IZR (bz0 b) * step) in
  let batchMax :=
    Vector3.mk (Vector3.x boundsMin + IZR (bx1 b) * step)
               (Vector3.y boundsMin + IZR (by1 b) * step)
               (Vector3.z boundsMin + IZR (bz1 b) * step) in
  skip <- (if sparse options then canSkipBatch sdf batchMin batchMax
           else Some false) ;;
  if skip : bool then Some []
  else
    let batchNx := (bx1 b - bx0 b + 1)%Z in
    let batchNy := (by1 b - by0 b + 1)%Z in
    let batchNz := (bz1 b - bz0 b + 1)%Z in
    let gridPoints := batchGrid boundsMin step b in
    values <- SDF3.evaluate sdf gridPoints ;;
    let dims := MarchingCubes.Dims batchNx batchNy batchNz in
    batchTriangles <- MarchingCubes.extractSurface values dims 0 ;;
    let scale := Vector3.mk step step step in
    let offset := batchMin in
    Some (map (fun v => (Vector3.op_mulv v scale + offset)%vec)
            batchTriangles).

(** "Determine worker count"; [hardware] is what
    [std::thread::hardware_concurrency()] reports. *)
Definition workerCount (options : Options) (hardware : Z) : Z :=
  let workers := workers options in
  if (workers =? 0)%Z then
    if (hardware =? 0)%Z then 4%Z else hardware
  else workers.

(** "Launch threads": worker [i] takes the batches from
    [i * batchesPerWorker] to [min(start + batchesPerWorker, size)].  The
    workers are run one after the other in the order of [i]; the order in
    which the threads of the source merge is not fixed. *)
Definition workerBlocks (batches : list batch_t) (workers : Z)
  : list (list batch_t) :=
  let size := Z.of_nat (List.length batches) in
  let batchesPerWorker := ((size + workers - 1) / workers)%Z in
  map (fun i =>
    let start := (i * batchesPerWorker)%Z in
    let end_ := Z.min (start + batchesPerWorker) size in
    if (start <? end_)%Z
    then firstn (Z.to_nat (end_ - start)) (skipn (Z.to_nat start) batches)
    else [])
    (MarchingCubes.range workers).

(** Everything of [generate] after the step size is known: grid
    dimensions, batches, workers, merge.  The source also snaps [boundsMax]
    to the grid here; no later statement reads it, the batches are placed
    from [boundsMin] and [step]. *)
Definition generateWithStep (sdf : SDF3.t) (options : Options)
    (hardware : Z) (boundsMin boundsMax : Vector3.t) (step : R)
  : option (list Vector3.t) :=
  let nx := (Zceil ((Vector3.x boundsMax - Vector3.x boundsMin) / step) + 1)%Z in
  let ny := (Zceil ((Vector3.y boundsMax - Vector3.y boundsMin) / step) + 1)%Z in
  let nz := (Zceil ((Vector3.z boundsMax - Vector3.z boundsMin) / step) + 1)%Z in
  batches <- createBatches nx ny nz (batchSize options) ;;
  let workers := workerCount options hardware in
  MarchingCubes.appendAll
    (MarchingCubes.appendAll (processBatch sdf options boundsMin step))
    (workerBlocks batches workers).

(** "Determine bounds" *)
Definition chooseBounds (sdf : SDF3.t) (options : Options)
  : option (Vector3.t * Vector3.t) :=
  if customBounds options then Some (boundsMin options, boundsMax options)
  else estimateBounds sdf.

(** [MeshGenerator::generate].  The function has no argument check and no
    [throw]: it always comes back with [Returned]; the [option] inside is
    [None] when the run meets undefined behaviour or a loop that does not
    end. *)
Definition generate (sdf : SDF3.t) (options : Options) (hardware : Z)
  : outcome (option (list Vector3.t)) :=
  Returned (
    bounds <- chooseBounds sdf options ;;
    let boundsMin := fst bounds in
    let boundsMax := snd bounds in
    let step := chooseStep options boundsMin boundsMax in
    generateWithStep sdf options hardware boundsMin boundsMax step).

End MeshGenerator.

(** ** Predicates of the specification *)

(** The data-model invariant "evaluation preserves length": on every batch
    the field returns, and returns as many distances as it was given points. *)
Definition preserves_length (f : SDF3.t) : Prop :=
  forall points : list Vector3.t,
    exists out, SDF3.evaluate f points = Some out /\
                List.length out = List.length points.

(** A box whose minimum corner is below its maximum corner on every axis. *)
Definition box_ordered (lo hi : Vector3.t) : Prop :=
  Vector3.x lo <= Vector3.x hi /\
  Vector3.y lo <= Vector3.y hi /\
  Vector3.z lo <= Vector3.z hi.

(** A finite box: every coordinate of both corners lies between [-M] and [M]. *)
Definition box_within (M : R) (lo hi : Vector3.t) : Prop :=
  (- M <= Vector3.x lo /\ Vector3.x hi <= M) /\
  (- M <= Vector3.y lo /\ Vector3.y hi <= M) /\
  (- M <= Vector3.z lo /\ Vector3.z hi <= M).

(** A point inside the box, bounds included. *)
Definition in_box (lo hi p : Vector3.t) : Prop :=
  (Vector3.x lo <= Vector3.x p <= Vector3.x hi) /\
  (Vector3.y lo <= Vector3.y p <= Vector3.y hi) /\
  (Vector3.z lo <= Vector3.z p <= Vector3.z hi).

(** The scan keeps [newMin] and [newMax] inside the sampled box, and once a
    point was found [newMin] is below [newMax]. *)
Definition near_inside (lo hi : Vector3.t) (st : MeshGenerator.near_t) : Prop :=
  in_box lo hi (MeshGenerator.newMin st) /\
  in_box lo hi (MeshGenerator.newMax st) /\
  (MeshGenerator.foundAny st = true ->
   box_ordered (MeshGenerator.newMin st) (MeshGenerator.newMax st)).

(** A row is well formed when the emission loop, started at its first
    entry, meets [-1] at an index that is a multiple of 3 inside the row
    after reading edge indices between 0 and 11 only. *)
Fixpoint rowEndsFrom (fuel : nat) (row : list Z) (i : nat) : bool :=
  match fuel with
  | O => false
  | S fuel' =>
      match nth_error row i, nth_error row (i + 1), nth_error row (i + 2) with
      | Some t0, Some t1, Some t2 =>
          (t0 =? -1)%Z ||
          ((0 <=? t0)%Z && (t0 <=? 11)%Z && (0 <=? t1)%Z && (t1 <=? 11)%Z &&
           (0 <=? t2)%Z && (t2 <=? 11)%Z && rowEndsFrom fuel' row (i + 3))
      | Some t0, _, _ => (t0 =? -1)%Z
      | None, _, _ => false
      end
  end.

Definition rowWellFormed (row : list Z) : bool :=
  (List.length row =? 16)%nat && rowEndsFrom 6 row 0.

(** A point function that changes by at most the distance between its
    arguments, as a true signed distance does. *)
Definition lipschitz1 (func : SDF3.Function) : Prop :=
  forall p q : Vector3.t,
    Rabs (func p - func q) <= Vector3.length (p - q)%vec.

(** * Properties *)

(** ** Arithmetic helpers *)

Lemma std_min_Rmin (a b : R) : std_min a b = Rmin a b.
Proof.
  unfold std_min, Rmin.
  destruct (Rlt_dec b a), (Rle_dec a b); lra.
Qed.

Lemma std_max_Rmax (a b : R) : std_max a b = Rmax a b.
Proof.
  unfold std_max, Rmax.
  destruct (Rlt_dec a b), (Rle_dec a b); lra.
Qed.

Lemma std_max_same (a : R) : std_max a a = a.
Proof. unfold std_max. destruct (Rlt_dec a a); lra. Qed.

Lemma clamp_Rmax_Rmin (v lo hi : R) : clamp v lo hi = Rmax lo (Rmin v hi).
Proof. unfold clamp. now rewrite std_max_Rmax, std_min_Rmin. Qed.

Lemma clamp_unit_cases (v : R) :
  (v <= 0 /\ clamp v 0 1 = 0) \/
  (0 < v < 1 /\ clamp v 0 1 = v) \/
  (1 <= v /\ clamp v 0 1 = 1).
Proof.
  unfold clamp, std_max, std_min.
  destruct (Rlt_dec 1 v); destruct (Rlt_dec 0 1); try lra;
    try (destruct (Rlt_dec 0 v); lra).
Qed.

(** The closed form behind the smooth union bound: with [h] strictly between
    0 and 1 the blend lies [k * (1 - h)^2] below [a] and [k * h^2] below [b]. *)
Lemma smooth_union_le_min (k a b : R) :
  0 < k -> SDF3.smooth_union k a b <= Rmin a b.
Proof.
  intros Hk. unfold SDF3.smooth_union.
  set (v := 0.5 + 0.5 * (b - a) / k).
  assert (Hv : (b - a) = k * (2 * v - 1)).
  { unfold v. replace 0.5 with (/ 2) by lra. field. lra. }
  destruct (clamp_unit_cases v) as [[Hle ->] | [[[H0 H1] ->] | [Hge ->]]].
  - assert (b - a <= - k) by nra.
    rewrite Rmin_right by lra. lra.
  - apply Rmin_glb.
    + assert (b * (1 - v) + a * v - k * v * (1 - v) - a
              = - (k * ((1 - v) * (1 - v)))) as E.
      { replace b with (a + k * (2 * v - 1)) by lra. ring. }
      assert (0 <= k * ((1 - v) * (1 - v))) by (apply Rmult_le_pos; nra).
      lra.
    + assert (b * (1 - v) + a * v - k * v * (1 - v) - b
              = - (k * (v * v))) as E.
      { replace a with (b - k * (2 * v - 1)) by lra. ring. }
      assert (0 <= k * (v * v)) by (apply Rmult_le_pos; nra).
      lra.
  - assert (k <= b - a) by nra.
    rewrite Rmin_left by lra. lra.
Qed.

(** ** Fields that keep the batch length *)

Lemma wrapFunction_preserves_length (func : SDF3.Function) :
  preserves_length (SDF3.of_function func).
Proof.
  intros points. exists (map func points). split.
  - reflexivity.
  - apply length_map.
Qed.

Lemma k_preserves_length (f : SDF3.t) (kv : R) :
  preserves_length f -> preserves_length (SDF3.k f kv).
Proof. intros H points. exact (H points). Qed.

(** On a single point a length-preserving field returns one distance, and
    the call operator hands it back. *)
Lemma preserves_length_single (f : SDF3.t) (p : Vector3.t) :
  preserves_length f ->
  exists d, SDF3.vecFunc_ f [p] = Some [d] /\ SDF3.op_call f p = Some d.
Proof.
  intros H. destruct (H [p]) as [out [Hev Hlen]].
  unfold SDF3.evaluate in Hev.
  destruct out as [| d [| ? ?]]; simpl in Hlen; try discriminate.
  exists d. split; [exact Hev |].
  unfold SDF3.op_call. rewrite Hev. reflexivity.
Qed.

(** The combining closure on a single point where both operands answer
    with one distance. *)
Lemma combine_single hard smooth (fa fb : SDF3.VectorFunction) (k : R)
    (p : Vector3.t) (da db : R) :
  fa [p] = Some [da] -> fb [p] = Some [db] ->
  SDF3.combine hard smooth fa fb k [p]
  = Some [if Req_dec_T k 0 then hard da db else smooth k da db].
Proof.
  intros Ha Hb. unfold SDF3.combine. rewrite Ha, Hb. simpl.
  destruct (Req_dec_T k 0); reflexivity.
Qed.

Lemma op_or_single (a b : SDF3.t) (p : Vector3.t) (da db : R) :
  SDF3.vecFunc_ a [p] = Some [da] -> SDF3.vecFunc_ b [p] = Some [db] ->
  SDF3.op_call (SDF3.op_or a b) p
  = Some (let k := std_max (SDF3.getK a) (SDF3.getK b) in
          if Req_dec_T k 0 then SDF3.hard_union da db
          else SDF3.smooth_union k da db).
Proof.
  intros Ha Hb. unfold SDF3.op_call, SDF3.op_or. simpl.
  rewrite (combine_single _ _ _ _ _ p da db Ha Hb). reflexivity.
Qed.

(** A loop over indices whose body succeeds on each of them. *)
Lemma push_each_total {A : Type} (body : nat -> option A) (g : nat -> A)
    (idx : list nat) :
  (forall i, In i idx -> body i = Some (g i)) ->
  push_each body idx = Some (map g idx).
Proof.
  induction idx as [| i rest IH]; intros H; simpl.
  - reflexivity.
  - rewrite (H i) by now left. simpl.
    rewrite IH by (intros j Hj; apply H; now right). reflexivity.
Qed.

(** On a whole batch the combining closure answers index by index, provided
    both operands answered with one distance per point. *)
Lemma combine_batch hard smooth (fa fb : SDF3.VectorFunction) (k : R)
    (points : list Vector3.t) (a b : list R) :
  fa points = Some a -> fb points = Some b ->
  List.length a = List.length points ->
  List.length b = List.length points ->
  SDF3.combine hard smooth fa fb k points
  = Some (map (fun i =>
                 if Req_dec_T k 0 then hard (nth i a 0) (nth i b 0)
                 else smooth k (nth i a 0) (nth i b 0))
            (seq 0 (List.length points))).
Proof.
  intros Ha Hb Hla Hlb. unfold SDF3.combine. rewrite Ha, Hb. cbn [bind].
  assert (Hat : forall (v : list R) i,
             List.length v = List.length points ->
             In i (seq 0 (List.length points)) ->
             at_ v i = Some (nth i v 0)).
  { intros v i Hv Hi. apply in_seq in Hi. unfold at_.
    apply nth_error_nth'. lia. }
  destruct (Req_dec_T k 0); unfold for_index; apply push_each_total;
    intros i Hi; rewrite (Hat a i Hla Hi), (Hat b i Hlb Hi); reflexivity.
Qed.

(** Batch preservation is kept by the union of two fields that have it. *)
Lemma op_or_preserves_length (a b : SDF3.t) :
  preserves_length a -> preserves_length b ->
  preserves_length (SDF3.op_or a b).
Proof.
  intros Ha Hb points.
  destruct (Ha points) as [va [Hva Hla]].
  destruct (Hb points) as [vb [Hvb Hlb]].
  unfold SDF3.evaluate, SDF3.op_or. cbn [SDF3.vecFunc_ SDF3.of_vector].
  rewrite (combine_batch _ _ _ _ _ points va vb Hva Hvb Hla Hlb).
  eexists. split; [reflexivity |].
  now rewrite length_map, length_seq.
Qed.

(** Uniform scale on any field and any factor: the call operator of the
    scaled field is the operand's call at [p / factor], times [factor]. *)
Lemma scale_call (f : SDF3.t) (factor : R) (p : Vector3.t) :
  SDF3.op_call (Operations.scale f factor) p
  = option_map (fun d => factor * d) (SDF3.op_call f (p /^ factor)).
Proof.
  unfold SDF3.op_call, Operations.scale, SDF3.getFunction. simpl.
  destruct (SDF3.vecFunc_ f [p /^ factor]) as [[| r rest] |]; simpl.
  - f_equal. ring.
  - f_equal. ring.
  - reflexivity.
Qed.

(** ** The default field *)

(** C9. The default-constructed [SDF3] answers every batch with the empty
    list, so the answer is shorter than any non-empty batch, and its call
    operator returns 0 at every point. *)
Theorem C9_default_field_is_empty :
  (forall P : list Vector3.t, SDF3.evaluate SDF3.default P = Some []) /\
  (forall (P : list Vector3.t) (out : list R),
      P <> [] -> SDF3.evaluate SDF3.default P = Some out ->
      List.length out <> List.length P) /\
  (forall p : Vector3.t, SDF3.op_call SDF3.default p = Some 0).
Proof.
  split; [| split].
  - intros P. reflexivity.
  - intros P out HP Hev. simpl in Hev. injection Hev as <-.
    destruct P; [congruence | simpl; lia].
  - intros p. reflexivity.
Qed.

(** ** Boolean union *)

(** C3. The union operator smooths with [k = max(k_a, k_b)]; at each point
    it returns [min(a(p), b(p))] when [k = 0] and, when [k > 0], the blend
    [b(p)*(1-h) + a(p)*h - k*h*(1-h)] with
    [h = clamp(0.5 + 0.5*(b(p)-a(p))/k, 0, 1)]. *)
Theorem C3_union_formula (a b : SDF3.t) (p : Vector3.t)
    (Ha : preserves_length a) (Hb : preserves_length b) :
  let k := Rmax (SDF3.getK a) (SDF3.getK b) in
  exists da db : R,
    SDF3.op_call a p = Some da /\
    SDF3.op_call b p = Some db /\
    (k = 0 -> SDF3.op_call (SDF3.op_or a b) p = Some (Rmin da db)) /\
    (k > 0 ->
     let h := Rmax 0 (Rmin (0.5 + 0.5 * (db - da) / k) 1) in
     SDF3.op_call (SDF3.op_or a b) p
     = Some (db * (1 - h) + da * h - k * h * (1 - h))).
Proof.
  intros k.
  destruct (preserves_length_single a p Ha) as [da [Hva Hca]].
  destruct (preserves_length_single b p Hb) as [db [Hvb Hcb]].
  exists da, db. repeat split; try assumption.
  - intros Hk. rewrite (op_or_single a b p da db Hva Hvb). simpl.
    rewrite std_max_Rmax. fold k.
    destruct (Req_dec_T k 0); [| contradiction].
    unfold SDF3.hard_union. now rewrite std_min_Rmin.
  - intros Hk h. rewrite (op_or_single a b p da db Hva Hvb). simpl.
    rewrite std_max_Rmax. fold k.
    destruct (Req_dec_T k 0); [lra |].
    unfold SDF3.smooth_union. rewrite clamp_Rmax_Rmin. reflexivity.
Qed.

Lemma C3_union_formula_witness :
  exists da db : R,
    SDF3.op_call (SDF3.of_function (fun _ => 1)) ORIGIN = Some da /\
    SDF3.op_call (SDF3.of_function (fun _ => 2)) ORIGIN = Some db /\
    (Rmax 0 0 = 0 ->
     SDF3.op_call (SDF3.op_or (SDF3.of_function (fun _ => 1))
                              (SDF3.of_function (fun _ => 2))) ORIGIN
     = Some (Rmin da db)) /\
    (Rmax 0 0 > 0 ->
     let h := Rmax 0 (Rmin (0.5 + 0.5 * (db - da) / Rmax 0 0) 1) in
     SDF3.op_call (SDF3.op_or (SDF3.of_function (fun _ => 1))
                              (SDF3.of_function (fun _ => 2))) ORIGIN
     = Some (db * (1 - h) + da * h - Rmax 0 0 * h * (1 - h))).
Proof.
  exact (C3_union_formula
           (SDF3.of_function (fun _ => 1)) (SDF3.of_function (fun _ => 2))
           ORIGIN
           (wrapFunction_preserves_length (fun _ => 1))
           (wrapFunction_preserves_length (fun _ => 2))).
Defined.

(** C4. For [k > 0] the smooth union never exceeds the smaller operand
    distance: [union_smooth(a, b, k)(p) <= min(a(p), b(p))]. *)
Theorem C4_smooth_union_bound (a b : SDF3.t) (k : R) (p : Vector3.t)
    (Hk : 0 < k) (Ha : preserves_length a) (Hb : preserves_length b) :
  exists d da db : R,
    SDF3.op_call (Operations.unionOp a b k) p = Some d /\
    SDF3.op_call a p = Some da /\
    SDF3.op_call b p = Some db /\
    d <= Rmin da db.
Proof.
  destruct (preserves_length_single a p Ha) as [da [Hva Hca]].
  destruct (preserves_length_single b p Hb) as [db [Hvb Hcb]].
  exists (SDF3.smooth_union k da db), da, db.
  repeat split; try assumption.
  - unfold Operations.unionOp. destruct (Rlt_dec 0 k); [| lra].
    rewrite (op_or_single (SDF3.k a k) (SDF3.k b k) p da db Hva Hvb).
    simpl. rewrite std_max_same.
    destruct (Req_dec_T k 0); [lra | reflexivity].
  - now apply smooth_union_le_min.
Qed.

Lemma C4_smooth_union_bound_witness :
  0 < 1 /\
  exists d da db : R,
    SDF3.op_call (Operations.unionOp (SDF3.of_function (fun _ => 1))
                    (SDF3.of_function (fun _ => 2)) 1) ORIGIN = Some d /\
    SDF3.op_call (SDF3.of_function (fun _ => 1)) ORIGIN = Some da /\
    SDF3.op_call (SDF3.of_function (fun _ => 2)) ORIGIN = Some db /\
    d <= Rmin da db.
Proof.
  split; [lra |].
  apply (C4_smooth_union_bound
           (SDF3.of_function (fun _ => 1)) (SDF3.of_function (fun _ => 2))
           1 ORIGIN).
  - lra.
  - apply wrapFunction_preserves_length.
  - apply wrapFunction_preserves_length.
Defined.

(** ** Uniform scale *)

(** C5. For [s > 0], [scale(f, s)(p) = s * f(p / s)]: the scaled field,
    called at [p], returns [s] times what [f] returns at [p / s]. *)
Theorem C5_uniform_scale (f : SDF3.t) (s : R) (p : Vector3.t) (Hs : 0 < s) :
  SDF3.op_call (Operations.scale f s) p
  = option_map (fun d => s * d) (SDF3.op_call f (p /^ s)).
Proof. apply scale_call. Qed.

Lemma C5_uniform_scale_witness :
  0 < 2 /\
  SDF3.op_call (Operations.scale (SDF3.of_function Vector3.x) 2)
               (Vector3.mk 4 0 0)
  = option_map (fun d => 2 * d)
      (SDF3.op_call (SDF3.of_function Vector3.x) (Vector3.mk 4 0 0 /^ 2)).
Proof.
  split; [lra |].
  apply (C5_uniform_scale (SDF3.of_function Vector3.x) 2 (Vector3.mk 4 0 0)).
  lra.
Defined.

(** ** Edge interpolation *)

Lemma vertexInterp_by_path (iso : R) (p1 p2 : Vector3.t) (v1 v2 : R) :
  MarchingCubes.vertexInterp iso p1 p2 v1 v2
  = match MarchingCubes.interpPath iso v1 v2 with
    | MarchingCubes.ReturnP1 => p1
    | MarchingCubes.ReturnP2 => p2
    | MarchingCubes.ReturnP1Flat => p1
    | MarchingCubes.ReturnInterpolated =>
        (p1 + (p2 - p1) *^ ((iso - v1) / (v2 - v1)))%vec
    end.
Proof.
  unfold MarchingCubes.vertexInterp, MarchingCubes.interpPath.
  repeat match goal with |- context [Rlt_dec ?a ?b] => destruct (Rlt_dec a b) end;
    reflexivity.
Qed.

(** C6. [vertexInterp] returns [p1] if [|iso - v1| < 1e-10], else [p2] if
    [|iso - v2| < 1e-10], else [p1] if [|v1 - v2| < 1e-10], and otherwise
    [p1 + (p2 - p1) * mu] with [mu = (iso - v1) / (v2 - v1)]; the dividing
    return is reached only when [|v1 - v2| >= 1e-10], where the divisor is
    not zero. *)
Theorem C6_vertexInterp_cases (iso : R) (p1 p2 : Vector3.t) (v1 v2 : R) :
  (Rabs (iso - v1) < 1e-10 ->
   MarchingCubes.vertexInterp iso p1 p2 v1 v2 = p1) /\
  (~ Rabs (iso - v1) < 1e-10 -> Rabs (iso - v2) < 1e-10 ->
   MarchingCubes.vertexInterp iso p1 p2 v1 v2 = p2) /\
  (~ Rabs (iso - v1) < 1e-10 -> ~ Rabs (iso - v2) < 1e-10 ->
   Rabs (v1 - v2) < 1e-10 ->
   MarchingCubes.vertexInterp iso p1 p2 v1 v2 = p1) /\
  (~ Rabs (iso - v1) < 1e-10 -> ~ Rabs (iso - v2) < 1e-10 ->
   ~ Rabs (v1 - v2) < 1e-10 ->
   MarchingCubes.vertexInterp iso p1 p2 v1 v2
   = (p1 + (p2 - p1) *^ ((iso - v1) / (v2 - v1)))%vec) /\
  (MarchingCubes.interpPath iso v1 v2 = MarchingCubes.ReturnInterpolated ->
   Rabs (v1 - v2) >= 1e-10 /\ v2 - v1 <> 0).
Proof.
  unfold MarchingCubes.vertexInterp, MarchingCubes.interpPath.
  destruct (Rlt_dec (Rabs (iso - v1)) 1e-10);
    destruct (Rlt_dec (Rabs (iso - v2)) 1e-10);
    destruct (Rlt_dec (Rabs (v1 - v2)) 1e-10);
    repeat split; intros; try reflexivity; try contradiction;
    try discriminate; try lra.
  intros E. apply n1. replace (v1 - v2) with (- (v2 - v1)) by ring.
  rewrite E, Ropp_0, Rabs_R0. lra.
Qed.

(** ** Rotation about a vanishing axis *)

Lemma normalized_short (a : Vector3.t) :
  Vector3.length a < 1e-10 -> Vector3.normalized a = Vector3.mk 0 0 0.
Proof.
  intros H. unfold Vector3.normalized.
  destruct (Rlt_dec (Vector3.length a) 1e-10); [reflexivity | contradiction].
Qed.

Lemma length_zero : Vector3.length (Vector3.mk 0 0 0) = 0.
Proof.
  unfold Vector3.length. simpl.
  replace (0 * 0 + 0 * 0 + 0 * 0) with 0 by ring. apply sqrt_0.
Qed.

Lemma rotatePoint_zero_axis (c s t : R) (p : Vector3.t) :
  Operations.rotatePoint (Vector3.mk 0 0 0) c s t p = p *^ c.
Proof.
  unfold Operations.rotatePoint, Vector3.op_mul. simpl. f_equal; ring.
Qed.

Lemma rotate_zero_axis (sdf : SDF3.t) (angle : R) (axis : Vector3.t) :
  Vector3.normalized axis = Vector3.mk 0 0 0 ->
  exists g,
    Operations.rotate sdf angle axis = Returned g /\
    forall points,
      SDF3.evaluate g points
      = SDF3.evaluate sdf (map (fun p => p *^ cos angle) points).
Proof.
  intros Hn. unfold Operations.rotate. rewrite Hn.
  eexists. split; [reflexivity |].
  intros points. unfold SDF3.evaluate, SDF3.getFunction. simpl.
  f_equal. apply map_ext. intros p. apply rotatePoint_zero_axis.
Qed.

(** [rotate] and [orient] come back with a field whatever the axis is. *)
Lemma rotate_returns (sdf : SDF3.t) (angle : R) (axis : Vector3.t) :
  exists g, Operations.rotate sdf angle axis = Returned g.
Proof. unfold Operations.rotate. eexists. reflexivity. Qed.

Lemma orient_returns (sdf : SDF3.t) (axis : Vector3.t) :
  exists g, Operations.orient sdf axis = Returned g.
Proof.
  unfold Operations.orient.
  repeat match goal with
         | |- context [Rlt_dec ?a ?b] => destruct (Rlt_dec a b)
         end;
    try apply rotate_returns; eexists; reflexivity.
Qed.

(** The claim of C7 as the interface documents it fails at the zero axis:
    neither call raises [ArgumentError], and the field that [rotate] returns
    can be called. *)
Lemma C7_zero_axis_not_rejected :
  Vector3.length ORIGIN < 1e-10 /\
  Operations.rotate (SDF3.of_function (fun _ => 1)) 0 ORIGIN
    <> Raised ArgumentError /\
  Operations.orient (SDF3.of_function (fun _ => 1)) ORIGIN
    <> Raised ArgumentError /\
  exists g,
    Operations.rotate (SDF3.of_function (fun _ => 1)) 0 ORIGIN = Returned g /\
    SDF3.op_call g (Vector3.mk 1 2 3) = Some 1.
Proof.
  split; [| split; [| split]].
  - unfold ORIGIN. rewrite length_zero. lra.
  - unfold Operations.rotate. discriminate.
  - destruct (orient_returns (SDF3.of_function (fun _ => 1)) ORIGIN) as [g ->].
    discriminate.
  - unfold Operations.rotate. eexists. split; reflexivity.
Qed.

(** C7, amended. With an axis shorter than [1e-10] neither [rotate] nor
    [orient] raises: [normalized] turns the axis into the zero vector and
    a field is returned that evaluates the operand at [p * cos(angle)],
    with [angle = acos(0)] in the case of [orient]. *)
Theorem C7_zero_axis_returns_field (sdf : SDF3.t) (angle : R)
    (axis : Vector3.t) (Haxis : Vector3.length axis < 1e-10) :
  (exists g,
     Operations.rotate sdf angle axis = Returned g /\
     forall points,
       SDF3.evaluate g points
       = SDF3.evaluate sdf (map (fun p => p *^ cos angle) points)) /\
  (exists g,
     Operations.orient sdf axis = Returned g /\
     forall points,
       SDF3.evaluate g points
       = SDF3.evaluate sdf (map (fun p => p *^ cos (acos 0)) points)).
Proof.
  assert (Hn : Vector3.normalized axis = Vector3.mk 0 0 0)
    by now apply normalized_short.
  split.
  - now apply rotate_zero_axis.
  - unfold Operations.orient. rewrite Hn.
    destruct (Rlt_dec _ _) as [Hlt | _].
    { exfalso. revert Hlt. unfold Vector3.lengthSquared, Z_axis. simpl. lra. }
    destruct (Rlt_dec _ _) as [Hlt | _].
    { exfalso. revert Hlt. unfold Vector3.lengthSquared, Z_axis. simpl. lra. }
    assert (Hc : Vector3.cross Z_axis (Vector3.mk 0 0 0) = Vector3.mk 0 0 0).
    { unfold Vector3.cross, Z_axis. simpl. f_equal; ring. }
    assert (Hd : clamp (Vector3.dot Z_axis (Vector3.mk 0 0 0)) (-1) 1 = 0).
    { unfold Vector3.dot, Z_axis. simpl.
      replace (0 * 0 + 0 * 0 + 1 * 0) with 0 by ring.
      unfold clamp, std_max, std_min.
      destruct (Rlt_dec 1 0); [lra |].
      destruct (Rlt_dec (-1) 0); lra. }
    assert (Hz : Vector3.normalized (Vector3.mk 0 0 0) = Vector3.mk 0 0 0).
    { apply normalized_short. rewrite length_zero. lra. }
    rewrite Hc, Hd, Hz.
    now apply rotate_zero_axis.
Qed.

Lemma C7_zero_axis_returns_field_witness :
  Vector3.length (Vector3.mk 0 0 0) < 1e-10 /\
  (exists g,
     Operations.rotate SDF3.default 0 (Vector3.mk 0 0 0) = Returned g /\
     forall points,
       SDF3.evaluate g points
       = SDF3.evaluate SDF3.default (map (fun p => p *^ cos 0) points)) /\
  (exists g,
     Operations.orient SDF3.default (Vector3.mk 0 0 0) = Returned g /\
     forall points,
       SDF3.evaluate g points
       = SDF3.evaluate SDF3.default
           (map (fun p => p *^ cos (acos 0)) points)).
Proof.
  assert (H : Vector3.length (Vector3.mk 0 0 0) < 1e-10)
    by (rewrite length_zero; lra).
  split; [exact H |].
  exact (C7_zero_axis_returns_field SDF3.default 0 (Vector3.mk 0 0 0) H).
Defined.

(** ** Step size of generate *)

(** C10. With [step = 0] and [samples <= 0], [generate] raises nothing:
    the step becomes the constant 0.1 and the run goes on with it. *)
Theorem C10_step_fallback (sdf : SDF3.t) (options : MeshGenerator.Options)
    (hardware : Z)
    (Hstep : MeshGenerator.step options = 0)
    (Hsamples : (MeshGenerator.samples options <= 0)%Z) :
  (forall boundsMin boundsMax,
      MeshGenerator.chooseStep options boundsMin boundsMax = 0.1) /\
  (forall e, MeshGenerator.generate sdf options hardware <> Raised e) /\
  MeshGenerator.generate sdf options hardware
  = Returned (bounds <- MeshGenerator.chooseBounds sdf options ;;
              MeshGenerator.generateWithStep sdf options hardware
                (fst bounds) (snd bounds) 0.1).
Proof.
  assert (Hc : forall boundsMin boundsMax,
             MeshGenerator.chooseStep options boundsMin boundsMax = 0.1).
  { intros boundsMin boundsMax. unfold MeshGenerator.chooseStep.
    rewrite Hstep.
    destruct (Req_dec_T 0 0) as [_ | Hne]; [| now elim Hne].
    destruct (Z.ltb_spec 0 (MeshGenerator.samples options)); [lia |].
    destruct (Req_dec_T 0 0) as [_ | Hne]; [reflexivity | now elim Hne]. }
  split; [exact Hc | split].
  - intros e. unfold MeshGenerator.generate. discriminate.
  - unfold MeshGenerator.generate. f_equal.
    destruct (MeshGenerator.chooseBounds sdf options) as [bounds |];
      simpl; [| reflexivity].
    now rewrite Hc.
Qed.

Lemma C10_step_fallback_witness :
  let options :=
    MeshGenerator.mkOptions 0 Vector3.zero Vector3.zero false 0 0 32 true true in
  (forall boundsMin boundsMax,
      MeshGenerator.chooseStep options boundsMin boundsMax = 0.1) /\
  (forall e, MeshGenerator.generate SDF3.default options 8 <> Raised e) /\
  MeshGenerator.generate SDF3.default options 8
  = Returned (bounds <- MeshGenerator.chooseBounds SDF3.default options ;;
              MeshGenerator.generateWithStep SDF3.default options 8
                (fst bounds) (snd bounds) 0.1).
Proof.
  intros options.
  apply (C10_step_fallback SDF3.default options 8).
  - reflexivity.
  - simpl. lia.
Defined.

(** ** The sparse skip test *)

(** What the sign loop leaves in its two flags: [allPositive] stays true
    exactly when no value is negative, [allNegative] exactly when no value
    is positive.  A value equal to zero clears neither flag. *)
Lemma cornerSigns_flags (values : list R) (allPositive allNegative : bool) :
  (fst (MeshGenerator.cornerSigns values allPositive allNegative) = true <->
   allPositive = true /\ Forall (fun v => 0 <= v) values) /\
  (snd (MeshGenerator.cornerSigns values allPositive allNegative) = true <->
   allNegative = true /\ Forall (fun v => v <= 0) values).
Proof.
  revert allPositive allNegative.
  induction values as [| v rest IH]; intros allPositive allNegative; simpl.
  - split; (split; [intros H; split; [exact H | constructor] | tauto]).
  - destruct (IH (if Rlt_dec v 0 then false else allPositive)
                 (if Rgt_dec v 0 then false else allNegative)) as [IHp IHn].
    split.
    + rewrite IHp. destruct (Rlt_dec v 0) as [Hv | Hv].
      * split; [intros [F _]; discriminate |].
        intros [_ F]. inversion F; subst. lra.
      * split; intros [Hp F]; (split; [exact Hp |]).
        -- constructor; [lra | exact F].
        -- now inversion F.
    + rewrite IHn. destruct (Rgt_dec v 0) as [Hv | Hv].
      * split; [intros [F _]; discriminate |].
        intros [_ F]. inversion F; subst. lra.
      * split; intros [Hp F]; (split; [exact Hp |]).
        -- constructor; [lra | exact F].
        -- now inversion F.
Qed.

(** The decision [canSkipBatch] takes: the batch is skipped exactly when the
    centre distance exceeds the radius in absolute value and no corner value
    is negative, or none is positive. *)
Lemma canSkipBatch_decides (sdf : SDF3.t) (batchMin batchMax : Vector3.t) :
  MeshGenerator.canSkipBatch sdf batchMin batchMax = Some true <->
  exists (centerDist : R) (values : list R),
    SDF3.op_call sdf (MeshGenerator.batchCenter batchMin batchMax)
      = Some centerDist /\
    Rabs centerDist > MeshGenerator.batchRadius batchMin batchMax /\
    SDF3.evaluate sdf (MeshGenerator.batchCorners batchMin batchMax)
      = Some values /\
    (Forall (fun v => 0 <= v) values \/ Forall (fun v => v <= 0) values).
Proof.
  unfold MeshGenerator.canSkipBatch.
  destruct (SDF3.op_call sdf (MeshGenerator.batchCenter batchMin batchMax))
    as [centerDist |]; simpl.
  2: { split; [discriminate | intros (? & ? & ? & _); discriminate]. }
  destruct (Rle_dec (Rabs centerDist)
              (MeshGenerator.batchRadius batchMin batchMax)) as [Hle | Hgt].
  { split; [discriminate |].
    intros (c & vs & Hc & Hr & _). injection Hc as <-. lra. }
  destruct (SDF3.evaluate sdf (MeshGenerator.batchCorners batchMin batchMax))
    as [values |]; simpl.
  2: { split; [discriminate | intros (? & ? & _ & _ & ? & _); discriminate]. }
  destruct (cornerSigns_flags values true true) as [Hp Hn].
  split.
  - intros H. injection H as H. apply orb_true_iff in H.
    exists centerDist, values. repeat split; try reflexivity; [lra |].
    destruct H as [H | H]; [left; now apply Hp | right; now apply Hn].
  - intros (c & vs & Hc & Hr & Hv & Hs). injection Hc as <-.
    injection Hv as <-. f_equal. apply orb_true_iff.
    destruct Hs as [Hs | Hs]; [left; apply Hp | right; apply Hn]; now split.
Qed.

Lemma sqrt_3_lt_2 : sqrt 3 < 2.
Proof.
  rewrite <- (sqrt_square 2) by lra.
  apply sqrt_lt_1_alt. lra.
Qed.

(** C2, the run of the code that departs from the claim.  For the field
    [f(p) = 20 * p.x] and the unit batch from [(0,0,0)] to [(1,1,1)] the
    centre distance is 10, above the radius [sqrt(3)/2]; four corners have
    distance exactly zero and the other four have distance 20; the batch is
    skipped. *)
Theorem C2_zero_corner_batch_is_skipped :
  let sdf := SDF3.of_function (fun p => 20 * Vector3.x p) in
  let batchMin := Vector3.mk 0 0 0 in
  let batchMax := Vector3.mk 1 1 1 in
  In (Vector3.mk 0 0 0) (MeshGenerator.batchCorners batchMin batchMax) /\
  SDF3.op_call sdf (Vector3.mk 0 0 0) = Some 0 /\
  MeshGenerator.canSkipBatch sdf batchMin batchMax = Some true.
Proof.
  intros sdf batchMin batchMax.
  split; [left; reflexivity | split].
  { unfold SDF3.op_call, sdf. simpl. f_equal. ring. }
  apply canSkipBatch_decides.
  exists (20 * ((0 + 1) * 0.5)),
         [20 * 0; 20 * 1; 20 * 0; 20 * 1; 20 * 0; 20 * 1; 20 * 0; 20 * 1].
  split; [reflexivity | split; [| split; [reflexivity |]]].
  - unfold MeshGenerator.batchRadius, Vector3.length. simpl.
    replace ((1 - 0) * (1 - 0) + (1 - 0) * (1 - 0) + (1 - 0) * (1 - 0))
      with 3 by ring.
    rewrite Rabs_pos_eq by lra.
    pose proof sqrt_3_lt_2. lra.
  - left. repeat constructor; lra.
Qed.

(** ** The triangle table *)

Lemma Rlt_dec_true (a b : R) {A : Type} (u v : A) :
  a < b -> (if Rlt_dec a b then u else v) = u.
Proof. intros H. destruct (Rlt_dec a b); [reflexivity | contradiction]. Qed.

Lemma Rlt_dec_false (a b : R) {A : Type} (u v : A) :
  ~ a < b -> (if Rlt_dec a b then u else v) = v.
Proof. intros H. destruct (Rlt_dec a b); [contradiction | reflexivity]. Qed.

Lemma triTable_shape :
  List.length MarchingCubes.triTable = 256%nat /\
  Forall (fun row => List.length row = 16%nat) MarchingCubes.triTable.
Proof.
  split.
  - reflexivity.
  - unfold MarchingCubes.triTable. apply Forall_app. split.
    + repeat constructor.
    + apply Forall_forall. intros row Hin.
      apply repeat_spec in Hin. subst row. reflexivity.
Qed.

(** The 17 rows that the source lists are well formed. *)
Lemma triTable_listed_wellFormed :
  forallb rowWellFormed MarchingCubes.triTable_listed = true.
Proof. vm_compute. reflexivity. Qed.

(** On a well-formed row the emission loop of the source stops inside the
    row and reads existing edge vertices only. *)
Lemma emitTriangles_wellFormed (row : list Z) (edgeVertices : list Vector3.t) :
  List.length edgeVertices = 12%nat ->
  forall (fuel fuel' i : nat),
    (fuel <= fuel')%nat ->
    rowEndsFrom fuel row i = true ->
    exists triangles,
      MarchingCubes.emitTriangles fuel' row edgeVertices i = Some triangles.
Proof.
  intros Hev.
  assert (Hedge : forall t, (0 <=? t)%Z && (t <=? 11)%Z = true ->
            exists v, MarchingCubes.edgeVertex edgeVertices t = Some v).
  { intros t Ht. apply andb_true_iff in Ht. destruct Ht as [H0 H11].
    apply Z.leb_le in H0, H11.
    unfold MarchingCubes.edgeVertex, MarchingCubes.at_int.
    destruct (Z.ltb_spec t 0); [lia |].
    destruct (nth_error edgeVertices (Z.to_nat t)) as [v |] eqn:Hv;
      [now exists v |].
    apply nth_error_None in Hv. lia. }
  induction fuel as [| fuel IH]; intros fuel' i Hle Hrow; [discriminate |].
  destruct fuel' as [| fuel']; [lia |].
  cbn [rowEndsFrom] in Hrow. cbn [MarchingCubes.emitTriangles]. unfold at_.
  destruct (nth_error row i) as [t0 |]; [| discriminate]. cbn [bind].
  destruct (Z.eqb_spec t0 (-1)) as [Heq | Hne]; [now exists [] |].
  destruct (nth_error row (i + 1)) as [t1 |]; [| discriminate].
  destruct (nth_error row (i + 2)) as [t2 |]; [| discriminate].
  cbn [orb] in Hrow.
  repeat (apply andb_true_iff in Hrow; destruct Hrow as [Hrow ?]).
  destruct (Hedge t0) as [v0 ->]; [now apply andb_true_iff |]. cbn [bind].
  destruct (Hedge t1) as [v1 ->]; [now apply andb_true_iff |]. cbn [bind].
  destruct (Hedge t2) as [v2 ->]; [now apply andb_true_iff |]. cbn [bind].
  destruct (IH fuel' (i + 3)%nat) as [rest ->]; [lia | assumption |].
  cbn [bind]. now eexists.
Qed.

(** Every row from 17 on is a row of sixteen zeros. *)
Lemma triTable_unlisted_rows (cubeIndex : Z) :
  (17 <= cubeIndex <= 255)%Z ->
  MarchingCubes.at_int MarchingCubes.triTable cubeIndex
  = Some (repeat 0%Z 16%nat).
Proof.
  intros H. unfold MarchingCubes.at_int.
  destruct (Z.ltb_spec cubeIndex 0); [lia |].
  unfold MarchingCubes.triTable.
  rewrite nth_error_app2 by (simpl; lia).
  change (List.length MarchingCubes.triTable_listed) with 17%nat.
  apply nth_error_repeat. lia.
Qed.

(** A cell whose eight corner reads succeed and whose cube index is neither
    0 nor 255 and at least 17 has no defined result: the emission loop runs
    off the end of its row. *)
Lemma cell_unlisted_row (volume : list R) (dims : MarchingCubes.dims_t)
    (level : R) (x y z : Z) (v0 v1 v2 v3 v4 v5 v6 v7 : R) :
  MarchingCubes.at_int volume (MarchingCubes.getIndex x y z dims) = Some v0 ->
  MarchingCubes.at_int volume (MarchingCubes.getIndex (x + 1) y z dims)
    = Some v1 ->
  MarchingCubes.at_int volume (MarchingCubes.getIndex (x + 1) (y + 1) z dims)
    = Some v2 ->
  MarchingCubes.at_int volume (MarchingCubes.getIndex x (y + 1) z dims)
    = Some v3 ->
  MarchingCubes.at_int volume (MarchingCubes.getIndex x y (z + 1) dims)
    = Some v4 ->
  MarchingCubes.at_int volume (MarchingCubes.getIndex (x + 1) y (z + 1) dims)
    = Some v5 ->
  MarchingCubes.at_int volume
    (MarchingCubes.getIndex (x + 1) (y + 1) (z + 1) dims) = Some v6 ->
  MarchingCubes.at_int volume (MarchingCubes.getIndex x (y + 1) (z + 1) dims)
    = Some v7 ->
  (17 <= MarchingCubes.cubeIndexFrom [v0; v1; v2; v3; v4; v5; v6; v7] level 0 0
      <= 254)%Z ->
  MarchingCubes.cell volume dims level x y z = None.
Proof.
  intros H0 H1 H2 H3 H4 H5 H6 H7 Hidx.
  unfold MarchingCubes.cell.
  rewrite H0, H1, H2, H3, H4, H5, H6, H7. unfold bind at 1 2 3 4 5 6 7 8.
  set (cubeIndex :=
         MarchingCubes.cubeIndexFrom [v0; v1; v2; v3; v4; v5; v6; v7] level 0 0)
    in *.
  destruct (Z.eqb_spec cubeIndex 0); [lia |].
  destruct (Z.eqb_spec cubeIndex 255); [lia |].
  rewrite (triTable_unlisted_rows cubeIndex) by lia.
  reflexivity.
Qed.

(** C1, the run of the code that departs from the claim.  Rows 17 to 255
    of the table hold sixteen zeros and no [-1], and row 16 holds sixteen
    [-1]; the 2x2x2 volume whose corners 0 and 4 lie below the level has
    cube index 17, and the emission loop of [extractSurface] runs off the
    end of that row. *)
Theorem C1_triTable_row_without_terminator :
  (forall cubeIndex : Z,
      (17 <= cubeIndex <= 255)%Z ->
      exists row,
        MarchingCubes.at_int MarchingCubes.triTable cubeIndex = Some row /\
        List.length row = 16%nat /\
        ~ In (-1)%Z row) /\
  MarchingCubes.at_int MarchingCubes.triTable 16
    = Some (repeat (-1)%Z 16%nat) /\
  MarchingCubes.cubeIndexFrom [-1; 1; 1; 1; -1; 1; 1; 1] 0 0 0 = 17%Z /\
  MarchingCubes.extractSurface [-1; 1; 1; 1; -1; 1; 1; 1]
    (MarchingCubes.Dims 2 2 2) 0 = None.
Proof.
  assert (Hidx : MarchingCubes.cubeIndexFrom [-1; 1; 1; 1; -1; 1; 1; 1] 0 0 0
                 = 17%Z).
  { simpl.
    rewrite !(Rlt_dec_true (-1) 0) by lra.
    rewrite !(Rlt_dec_false 1 0) by lra.
    reflexivity. }
  split; [| split; [reflexivity | split; [exact Hidx |]]].
  - intros cubeIndex H. exists (repeat 0%Z 16%nat).
    split; [now apply triTable_unlisted_rows | split; [reflexivity |]].
    intros Hin. apply repeat_spec in Hin. discriminate.
  - unfold MarchingCubes.extractSurface.
    change (MarchingCubes.range _) with [0%Z].
    cbn [MarchingCubes.appendAll].
    rewrite (cell_unlisted_row _ _ _ _ _ _ (-1) 1 1 1 (-1) 1 1 1);
      try reflexivity.
    rewrite Hidx. lia.
Qed.

(** ** The bounds estimator *)

Lemma estimateSamples_minus_1 : INR MeshGenerator.estimateSamples - 1 = 15.
Proof. unfold MeshGenerator.estimateSamples. simpl. lra. Qed.

Lemma INR_below_16 (n : nat) : (n < 16)%nat -> 0 <= INR n <= 15.
Proof.
  intros H. split; [apply pos_INR |].
  replace 15 with (INR 15) by (simpl; lra).
  apply le_INR. lia.
Qed.

(** A grid coordinate lies between the two ends of its axis. *)
Lemma grid_coordinate_inside (lo hi : R) (n : nat) :
  lo <= hi -> (n < 16)%nat ->
  lo <= lo + INR n * ((hi - lo) / 15) <= hi.
Proof.
  intros Hle Hn. pose proof (INR_below_16 n Hn) as [H0 H15].
  set (q := (hi - lo) / 15).
  assert (Hq : 15 * q = hi - lo) by (unfold q; field).
  assert (0 <= q) by lra.
  split; nra.
Qed.

Lemma gridPoints_inside (lo hi p : Vector3.t) :
  box_ordered lo hi ->
  In p (MeshGenerator.gridPoints lo
          ((hi - lo)%vec /^ (INR MeshGenerator.estimateSamples - 1))) ->
  in_box lo hi p.
Proof.
  intros (Hx & Hy & Hz) Hin. rewrite estimateSamples_minus_1 in Hin.
  unfold MeshGenerator.gridPoints in Hin.
  apply in_flat_map in Hin. destruct Hin as [k [Hk Hin]].
  apply in_flat_map in Hin. destruct Hin as [j [Hj Hin]].
  apply in_map_iff in Hin. destruct Hin as [i [<- Hi]].
  apply in_seq in Hk, Hj, Hi.
  unfold MeshGenerator.estimateSamples in Hk, Hj, Hi.
  unfold in_box. simpl.
  repeat split; apply grid_coordinate_inside; (assumption || lia).
Qed.

Lemma gridPoints_length (lo step : Vector3.t) :
  List.length (MeshGenerator.gridPoints lo step) = 4096%nat.
Proof. reflexivity. Qed.

Lemma std_min_cases (a b : R) :
  (std_min a b = a /\ a <= b) \/ (std_min a b = b /\ b <= a).
Proof. unfold std_min. destruct (Rlt_dec b a); [right | left]; lra. Qed.

Lemma std_max_cases (a b : R) :
  (std_max a b = a /\ b <= a) \/ (std_max a b = b /\ a <= b).
Proof. unfold std_max. destruct (Rlt_dec a b); [right | left]; lra. Qed.

Lemma near_inside_step (lo hi p : Vector3.t) (st : MeshGenerator.near_t) :
  in_box lo hi p -> near_inside lo hi st ->
  near_inside lo hi
    (MeshGenerator.Near (Vector3.min (MeshGenerator.newMin st) p)
                        (Vector3.max (MeshGenerator.newMax st) p) true).
Proof.
  intros (Px & Py & Pz) ((Mx & My & Mz) & (Nx & Ny & Nz) & _).
  unfold near_inside, in_box, box_ordered. simpl.
  destruct (std_min_cases (Vector3.x (MeshGenerator.newMin st)) (Vector3.x p))
    as [[-> ?] | [-> ?]];
  destruct (std_min_cases (Vector3.y (MeshGenerator.newMin st)) (Vector3.y p))
    as [[-> ?] | [-> ?]];
  destruct (std_min_cases (Vector3.z (MeshGenerator.newMin st)) (Vector3.z p))
    as [[-> ?] | [-> ?]];
  destruct (std_max_cases (Vector3.x (MeshGenerator.newMax st)) (Vector3.x p))
    as [[-> ?] | [-> ?]];
  destruct (std_max_cases (Vector3.y (MeshGenerator.newMax st)) (Vector3.y p))
    as [[-> ?] | [-> ?]];
  destruct (std_max_cases (Vector3.z (MeshGenerator.newMax st)) (Vector3.z p))
    as [[-> ?] | [-> ?]];
  repeat split; intros; lra.
Qed.

(** With enough values the scan reads inside [values] only, and it keeps
    the invariant. *)
Lemma findNear_inside (lo hi : Vector3.t) (values : list R) (threshold : R) :
  forall (points : list Vector3.t) (i : nat) (st : MeshGenerator.near_t),
    (i + List.length points <= List.length values)%nat ->
    Forall (in_box lo hi) points ->
    near_inside lo hi st ->
    exists st',
      MeshGenerator.findNear points values i threshold st = Some st' /\
      near_inside lo hi st'.
Proof.
  induction points as [| p rest IH]; intros i st Hlen Hpts Hst; simpl.
  - exists st. split; [reflexivity | exact Hst].
  - simpl in Hlen. inversion Hpts as [| ? ? Hp Hrest]; subst.
    unfold at_. destruct (nth_error values i) as [v |] eqn:Hv.
    2: { apply nth_error_None in Hv. lia. }
    simpl. apply IH; [lia | exact Hrest |].
    destruct (Rle_dec (Rabs v) threshold); [| exact Hst].
    now apply near_inside_step.
Qed.

(** When no value is within the threshold the scan changes nothing. *)
Lemma findNear_nothing (values : list R) (threshold : R) :
  Forall (fun d => ~ Rabs d <= threshold) values ->
  forall (points : list Vector3.t) (i : nat) (st : MeshGenerator.near_t),
    (i + List.length points <= List.length values)%nat ->
    MeshGenerator.findNear points values i threshold st = Some st.
Proof.
  intros Hfar. induction points as [| p rest IH]; intros i st Hlen; simpl.
  - reflexivity.
  - simpl in Hlen. unfold at_.
    destruct (nth_error values i) as [v |] eqn:Hv.
    2: { apply nth_error_None in Hv. lia. }
    simpl. rewrite Forall_forall in Hfar.
    destruct (Rle_dec (Rabs v) threshold) as [Hnear | _].
    + exfalso. exact (Hfar v (nth_error_In _ _ Hv) Hnear).
    + apply IH. lia.
Qed.

(** One refinement of an ordered box inside [[-M, M]] on every axis gives an
    ordered box inside [[-2M, 2M]]. *)
Lemma refineBounds_bounded (sdf : SDF3.t) (lo hi : Vector3.t) (M : R) :
  preserves_length sdf ->
  box_ordered lo hi -> box_within M lo hi ->
  exists lo' hi',
    MeshGenerator.refineBounds sdf lo hi = Some (lo', hi') /\
    box_ordered lo' hi' /\ box_within (2 * M) lo' hi'.
Proof.
  intros Hlen Hord Hin. unfold MeshGenerator.refineBounds.
  set (step := (hi - lo)%vec /^ (INR MeshGenerator.estimateSamples - 1)).
  destruct (Hlen (MeshGenerator.gridPoints lo step)) as [values [-> Hvl]].
  cbn [bind].
  assert (Hinit : near_inside lo hi (MeshGenerator.Near hi lo false)).
  { destruct Hord as (? & ? & ?).
    unfold near_inside, in_box. simpl.
    repeat split; try lra; discriminate. }
  destruct (findNear_inside lo hi values (Vector3.length step / 2)
              (MeshGenerator.gridPoints lo step) 0
              (MeshGenerator.Near hi lo false)) as [st [-> Hst]].
  - rewrite Hvl. lia.
  - apply Forall_forall. intros p Hp. now apply (gridPoints_inside lo hi).
  - exact Hinit.
  - cbn [bind].
    destruct Hord as (Ox & Oy & Oz).
    destruct Hin as ((Lx & Ux) & (Ly & Uy) & (Lz & Uz)).
    destruct Hst as ((Mx & My & Mz) & (Nx & Ny & Nz) & Hfound).
    destruct (MeshGenerator.foundAny st) eqn:Hf; simpl.
    + destruct (Hfound eq_refl) as (Fx & Fy & Fz).
      eexists. eexists. split; [reflexivity |].
      unfold step. rewrite estimateSamples_minus_1.
      unfold box_ordered, box_within, Vector3.op_sub, Vector3.op_add,
        Vector3.op_mul, Vector3.op_div.
      cbn [Vector3.x Vector3.y Vector3.z].
      repeat split; lra.
    + eexists. eexists. split; [reflexivity |].
      unfold box_ordered, box_within, Vector3.op_sub, Vector3.op_add,
        Vector3.op_mul.
      cbn [Vector3.x Vector3.y Vector3.z].
      repeat split; lra.
Qed.

(** The loop returns for every length-preserving field; the loop body is
    entered at most [remaining] more times, and each pass at most doubles
    the bound on the coordinates. *)
Lemma estimateLoop_bounded (sdf : SDF3.t) :
  preserves_length sdf ->
  forall (remaining : nat) (lo hi : Vector3.t) (prev : R) (entered : nat)
         (M : R),
    box_ordered lo hi -> box_within M lo hi ->
    exists e,
      MeshGenerator.estimateLoop remaining sdf lo hi prev entered = Some e /\
      (MeshGenerator.iterations e <= entered + remaining)%nat /\
      box_ordered (MeshGenerator.estMin e) (MeshGenerator.estMax e) /\
      box_within (2 ^ remaining * M)
        (MeshGenerator.estMin e) (MeshGenerator.estMax e).
Proof.
  intros Hlen.
  induction remaining as [| remaining IH]; intros lo hi prev entered M Hord Hin.
  - simpl. eexists. split; [reflexivity |]. simpl.
    split; [lia | split; [exact Hord |]].
    now rewrite Rmult_1_l.
  - assert (HM : 0 <= M).
    { destruct Hord as (Ox & _). destruct Hin as ((Lx & Ux) & _). lra. }
    assert (Hpow : 1 <= 2 ^ remaining) by (apply pow_R1_Rle; lra).
    assert (Hgrow : forall a b : Vector3.t,
               box_within M a b -> box_within (2 ^ S remaining * M) a b).
    { intros a b ((Ax & Bx) & (Ay & By) & (Az & Bz)).
      assert (M <= 2 ^ S remaining * M) by (simpl; nra).
      unfold box_within. repeat split; lra. }
    cbn [MeshGenerator.estimateLoop].
    destruct (Rlt_dec _ _) as [_ | _].
    + eexists. split; [reflexivity |]. simpl MeshGenerator.iterations.
      simpl MeshGenerator.estMin. simpl MeshGenerator.estMax.
      split; [lia | split; [exact Hord | now apply Hgrow]].
    + destruct (refineBounds_bounded sdf lo hi M Hlen Hord Hin)
        as (lo' & hi' & -> & Hord' & Hin').
      cbn [bind fst snd].
      destruct (IH lo' hi'
                  (Vector3.length
                     ((hi - lo)%vec /^ (INR MeshGenerator.estimateSamples - 1))
                   / 2)
                  (S entered) (2 * M) Hord' Hin')
        as (e & He & Hit & Ho & Hw).
      exists e. split; [exact He |].
      split; [lia | split; [exact Ho |]].
      replace (2 ^ S remaining * M) with (2 ^ remaining * (2 * M))
        by (simpl; ring).
      exact Hw.
Qed.

(** The expanded box has the centre of the old box and twice its extent. *)
Lemma doubled_box (lo hi : Vector3.t) :
  let center := (lo + hi)%vec *^ 0.5 in
  let size := (hi - lo)%vec in
  ((center - size) + (center + size))%vec *^ 0.5 = center /\
  ((center + size) - (center - size))%vec = size *^ 2.
Proof.
  destruct lo as [lx ly lz], hi as [hx hy hz].
  unfold Vector3.op_add, Vector3.op_sub, Vector3.op_mul. simpl.
  split; f_equal; lra.
Qed.

(** C8. In an iteration of the bounds estimator in which no sampled grid
    point has [|d| <= threshold], the box is replaced by
    [(center - size, center + size)], the box of twice the extent about the
    same centre; the loop body is entered at most 32 times; and the
    estimator returns a finite box: ordered, with every coordinate between
    [-10 * 2^32] and [10 * 2^32]. *)
Theorem C8_estimateBounds_expands_and_returns (sdf : SDF3.t)
    (Hlen : preserves_length sdf) :
  (forall (boundsMin boundsMax : Vector3.t) (prevThreshold : R)
          (remaining entered : nat),
      let step := (boundsMax - boundsMin)%vec /^ 15 in
      let threshold := Vector3.length step / 2 in
      let center := (boundsMin + boundsMax)%vec *^ 0.5 in
      let size := (boundsMax - boundsMin)%vec in
      (forall values,
          SDF3.evaluate sdf (MeshGenerator.gridPoints boundsMin step)
            = Some values ->
          Forall (fun d => ~ Rabs d <= threshold) values) ->
      MeshGenerator.refineBounds sdf boundsMin boundsMax
        = Some ((center - size)%vec, (center + size)%vec) /\
      (~ Rabs (threshold - prevThreshold) < 1e-10 ->
       MeshGenerator.estimateLoop (S remaining) sdf boundsMin boundsMax
         prevThreshold entered
       = MeshGenerator.estimateLoop remaining sdf
           (center - size)%vec (center + size)%vec threshold (S entered)) /\
      ((center - size) + (center + size))%vec *^ 0.5 = center /\
      ((center + size) - (center - size))%vec = size *^ 2) /\
  (exists e,
      MeshGenerator.estimateRun sdf = Some e /\
      MeshGenerator.estimateBounds sdf
        = Some (MeshGenerator.estMin e, MeshGenerator.estMax e) /\
      (MeshGenerator.iterations e <= 32)%nat /\
      box_ordered (MeshGenerator.estMin e) (MeshGenerator.estMax e) /\
      box_within (10 * 2 ^ 32)
        (MeshGenerator.estMin e) (MeshGenerator.estMax e)).
Proof.
  split.
  - intros boundsMin boundsMax prevThreshold remaining entered
           step threshold center size Hfar.
    assert (Href : MeshGenerator.refineBounds sdf boundsMin boundsMax
                   = Some ((center - size)%vec, (center + size)%vec)).
    { unfold MeshGenerator.refineBounds.
      rewrite estimateSamples_minus_1. fold step. fold threshold.
      destruct (Hlen (MeshGenerator.gridPoints boundsMin step))
        as [values [Hev Hvl]].
      rewrite Hev. cbn [bind].
      rewrite (findNear_nothing values threshold (Hfar values Hev))
        by (rewrite Hvl; lia).
      reflexivity. }
    split; [exact Href | split; [| apply doubled_box]].
    intros Hnot. cbn [MeshGenerator.estimateLoop].
    rewrite estimateSamples_minus_1. fold step. fold threshold.
    destruct (Rlt_dec (Rabs (threshold - prevThreshold)) 1e-10);
      [contradiction |].
    rewrite Href. reflexivity.
  - destruct (estimateLoop_bounded sdf Hlen 32
                (Vector3.mk (-10) (-10) (-10)) (Vector3.mk 10 10 10)
                (-1) 0%nat 10) as (e & He & Hit & Hord & Hin).
    + unfold box_ordered. simpl. lra.
    + unfold box_within. simpl. lra.
    + exists e. fold (MeshGenerator.estimateRun sdf) in He.
      split; [exact He |].
      split; [unfold MeshGenerator.estimateBounds; now rewrite He |].
      split; [exact Hit | split; [exact Hord |]].
      now rewrite Rmult_comm.
Qed.

Lemma C8_estimateBounds_expands_and_returns_witness :
  preserves_length (SDF3.of_function (fun _ => 1)) /\
  exists e,
    MeshGenerator.estimateRun (SDF3.of_function (fun _ => 1)) = Some e /\
    (MeshGenerator.iterations e <= 32)%nat /\
    box_within (10 * 2 ^ 32) (MeshGenerator.estMin e) (MeshGenerator.estMax e).
Proof.
  split; [apply wrapFunction_preserves_length |].
  destruct (C8_estimateBounds_expands_and_returns
              (SDF3.of_function (fun _ => 1))
              (wrapFunction_preserves_length (fun _ => 1)))
    as [_ (e & He & _ & Hit & _ & Hin)].
  exists e. split; [exact He | split; [exact Hit | exact Hin]].
Defined.

(** * Further properties of the field algebra *)

(** ** Boolean operators *)

Lemma clamp_unit_flip (v : R) : clamp (1 - v) 0 1 = 1 - clamp v 0 1.
Proof.
  destruct (clamp_unit_cases v) as [[? ->] | [[? ->] | [? ->]]];
    destruct (clamp_unit_cases (1 - v)) as [[? ->] | [[? ->] | [? ->]]]; lra.
Qed.

Lemma std_min_comm (a b : R) : std_min a b = std_min b a.
Proof. rewrite !std_min_Rmin. apply Rmin_comm. Qed.

Lemma std_max_comm (a b : R) : std_max a b = std_max b a.
Proof. rewrite !std_max_Rmax. apply Rmax_comm. Qed.

Lemma smooth_union_comm (k a b : R) :
  SDF3.smooth_union k a b = SDF3.smooth_union k b a.
Proof.
  unfold SDF3.smooth_union.
  replace (0.5 + 0.5 * (a - b) / k) with (1 - (0.5 + 0.5 * (b - a) / k))
    by (unfold Rdiv; lra).
  rewrite clamp_unit_flip. ring.
Qed.

Lemma smooth_intersection_comm (k a b : R) :
  SDF3.smooth_intersection k a b = SDF3.smooth_intersection k b a.
Proof.
  unfold SDF3.smooth_intersection.
  replace (0.5 - 0.5 * (a - b) / k) with (1 - (0.5 - 0.5 * (b - a) / k))
    by (unfold Rdiv; lra).
  rewrite clamp_unit_flip. ring.
Qed.

Lemma combine_comm hard smooth (fa fb : SDF3.VectorFunction) (k : R)
    (points : list Vector3.t) (a b : list R) :
  (forall u v, hard u v = hard v u) ->
  (forall u v, smooth k u v = smooth k v u) ->
  fa points = Some a -> fb points = Some b ->
  List.length a = List.length points ->
  List.length b = List.length points ->
  SDF3.combine hard smooth fa fb k points
  = SDF3.combine hard smooth fb fa k points.
Proof.
  intros Hh Hs Ha Hb Hla Hlb.
  rewrite (combine_batch hard smooth fa fb k points a b Ha Hb Hla Hlb).
  rewrite (combine_batch hard smooth fb fa k points b a Hb Ha Hlb Hla).
  f_equal. apply map_ext. intros i.
  destruct (Req_dec_T k 0); [apply Hh | apply Hs].
Qed.

(** X1. Union and intersection do not depend on the order of their
    operands, whatever smoothing tags the operands carry: on every batch
    [a | b] answers as [b | a] and [a & b] as [b & a]. *)
Theorem X1_union_intersection_commute (a b : SDF3.t)
    (points : list Vector3.t)
    (Ha : preserves_length a) (Hb : preserves_length b) :
  SDF3.evaluate (SDF3.op_or a b) points
    = SDF3.evaluate (SDF3.op_or b a) points /\
  SDF3.evaluate (SDF3.op_and a b) points
    = SDF3.evaluate (SDF3.op_and b a) points.
Proof.
  destruct (Ha points) as [va [Hva Hla]].
  destruct (Hb points) as [vb [Hvb Hlb]].
  unfold SDF3.evaluate in Hva, Hvb.
  unfold SDF3.evaluate, SDF3.op_or, SDF3.op_and.
  cbn [SDF3.vecFunc_ SDF3.of_vector].
  rewrite (std_max_comm (SDF3.k_ b) (SDF3.k_ a)).
  split.
  - apply (combine_comm _ _ _ _ _ points va vb); try assumption.
    + intros u v. apply std_min_comm.
    + intros u v. apply smooth_union_comm.
  - apply (combine_comm _ _ _ _ _ points va vb); try assumption.
    + intros u v. apply std_max_comm.
    + intros u v. apply smooth_intersection_comm.
Qed.

Lemma X1_union_intersection_commute_witness :
  SDF3.evaluate (SDF3.op_or (SDF3.k (SDF3.of_function Vector3.x) 1)
                            (SDF3.of_function Vector3.y)) [ORIGIN]
    = SDF3.evaluate (SDF3.op_or (SDF3.of_function Vector3.y)
                       (SDF3.k (SDF3.of_function Vector3.x) 1)) [ORIGIN] /\
  SDF3.evaluate (SDF3.op_and (SDF3.k (SDF3.of_function Vector3.x) 1)
                             (SDF3.of_function Vector3.y)) [ORIGIN]
    = SDF3.evaluate (SDF3.op_and (SDF3.of_function Vector3.y)
                       (SDF3.k (SDF3.of_function Vector3.x) 1)) [ORIGIN].
Proof.
  apply (X1_union_intersection_commute
           (SDF3.k (SDF3.of_function Vector3.x) 1)
           (SDF3.of_function Vector3.y) [ORIGIN]).
  - apply k_preserves_length, wrapFunction_preserves_length.
  - apply wrapFunction_preserves_length.
Defined.

(** The smooth intersection lies [k * (1 - h)^2] above [a] and [k * h^2]
    above [b]. *)
Lemma smooth_intersection_ge_max (k a b : R) :
  0 < k -> Rmax a b <= SDF3.smooth_intersection k a b.
Proof.
  intros Hk. unfold SDF3.smooth_intersection.
  set (v := 0.5 - 0.5 * (b - a) / k).
  assert (Hv : (b - a) = k * (1 - 2 * v)).
  { unfold v. replace 0.5 with (/ 2) by lra. field. lra. }
  destruct (clamp_unit_cases v) as [[Hle ->] | [[[H0 H1] ->] | [Hge ->]]].
  - assert (k <= b - a) by nra.
    rewrite Rmax_right by lra. lra.
  - apply Rmax_lub.
    + assert (b * (1 - v) + a * v + k * v * (1 - v) - a
              = k * ((1 - v) * (1 - v))) as E.
      { replace b with (a + k * (1 - 2 * v)) by lra. ring. }
      assert (0 <= k * ((1 - v) * (1 - v))) by (apply Rmult_le_pos; nra).
      lra.
    + assert (b * (1 - v) + a * v + k * v * (1 - v) - b
              = k * (v * v)) as E.
      { replace a with (b - k * (1 - 2 * v)) by lra. ring. }
      assert (0 <= k * (v * v)) by (apply Rmult_le_pos; nra).
      lra.
  - assert (b - a <= - k) by nra.
    rewrite Rmax_left by lra. lra.
Qed.

Lemma smooth_difference_as_intersection (k a b : R) :
  SDF3.smooth_difference k a b = SDF3.smooth_intersection k (- b) a.
Proof.
  unfold SDF3.smooth_difference, SDF3.smooth_intersection.
  replace (a - - b) with (a + b) by ring. reflexivity.
Qed.

Lemma op_and_single (a b : SDF3.t) (p : Vector3.t) (da db : R) :
  SDF3.vecFunc_ a [p] = Some [da] -> SDF3.vecFunc_ b [p] = Some [db] ->
  SDF3.op_call (SDF3.op_and a b) p
  = Some (let k := std_max (SDF3.getK a) (SDF3.getK b) in
          if Req_dec_T k 0 then SDF3.hard_intersection da db
          else SDF3.smooth_intersection k da db).
Proof.
  intros Ha Hb. unfold SDF3.op_call, SDF3.op_and. simpl.
  rewrite (combine_single _ _ _ _ _ p da db Ha Hb). reflexivity.
Qed.

Lemma op_sub_single (a b : SDF3.t) (p : Vector3.t) (da db : R) :
  SDF3.vecFunc_ a [p] = Some [da] -> SDF3.vecFunc_ b [p] = Some [db] ->
  SDF3.op_call (SDF3.op_sub a b) p
  = Some (let k := std_max (SDF3.getK a) (SDF3.getK b) in
          if Req_dec_T k 0 then SDF3.hard_difference da db
          else SDF3.smooth_difference k da db).
Proof.
  intros Ha Hb. unfold SDF3.op_call, SDF3.op_sub. simpl.
  rewrite (combine_single _ _ _ _ _ p da db Ha Hb). reflexivity.
Qed.

(** X2. With [k > 0] the smooth intersection is nowhere below the larger
    operand distance and the smooth difference nowhere below
    [max(a(p), -b(p))]: smoothing only removes material from them. *)
Theorem X2_smooth_intersection_difference_bound (a b : SDF3.t) (k : R)
    (p : Vector3.t) (Hk : 0 < k)
    (Ha : preserves_length a) (Hb : preserves_length b) :
  exists di dd da db : R,
    SDF3.op_call a p = Some da /\
    SDF3.op_call b p = Some db /\
    SDF3.op_call (Operations.intersection a b k) p = Some di /\
    SDF3.op_call (Operations.difference a b k) p = Some dd /\
    Rmax da db <= di /\
    Rmax da (- db) <= dd.
Proof.
  destruct (preserves_length_single a p Ha) as [da [Hva Hca]].
  destruct (preserves_length_single b p Hb) as [db [Hvb Hcb]].
  exists (SDF3.smooth_intersection k da db),
         (SDF3.smooth_difference k da db), da, db.
  unfold Operations.intersection, Operations.difference.
  destruct (Rlt_dec 0 k); [| lra].
  rewrite (op_and_single (SDF3.k a k) (SDF3.k b k) p da db Hva Hvb).
  rewrite (op_sub_single (SDF3.k a k) (SDF3.k b k) p da db Hva Hvb).
  simpl. rewrite std_max_same.
  destruct (Req_dec_T k 0); [lra |].
  repeat split; try assumption.
  - now apply smooth_intersection_ge_max.
  - rewrite smooth_difference_as_intersection, Rmax_comm.
    now apply smooth_intersection_ge_max.
Qed.

Lemma X2_smooth_intersection_difference_bound_witness :
  0 < 1 /\
  exists di dd da db : R,
    SDF3.op_call (SDF3.of_function Vector3.x) ORIGIN = Some da /\
    SDF3.op_call (SDF3.of_function Vector3.y) ORIGIN = Some db /\
    SDF3.op_call (Operations.intersection (SDF3.of_function Vector3.x)
                    (SDF3.of_function Vector3.y) 1) ORIGIN = Some di /\
    SDF3.op_call (Operations.difference (SDF3.of_function Vector3.x)
                    (SDF3.of_function Vector3.y) 1) ORIGIN = Some dd /\
    Rmax da db <= di /\
    Rmax da (- db) <= dd.
Proof.
  split; [lra |].
  apply (X2_smooth_intersection_difference_bound
           (SDF3.of_function Vector3.x) (SDF3.of_function Vector3.y)
           1 ORIGIN).
  - lra.
  - apply wrapFunction_preserves_length.
  - apply wrapFunction_preserves_length.
Defined.

Lemma hard_difference_self (a : R) : SDF3.hard_difference a a = Rabs a.
Proof.
  unfold SDF3.hard_difference. rewrite std_max_Rmax.
  unfold Rmax, Rabs. destruct (Rle_dec a (- a)), (Rcase_abs a); lra.
Qed.

(** X3. Subtracting a field from itself leaves nothing: where the tag of
    [a] is not negative, [(a - a)(p)] is at least [|a(p)|], so it is never
    below zero. *)
Theorem X3_difference_with_itself (a : SDF3.t) (p : Vector3.t)
    (Hk : 0 <= SDF3.getK a) (Ha : preserves_length a) :
  exists d da : R,
    SDF3.op_call a p = Some da /\
    SDF3.op_call (SDF3.op_sub a a) p = Some d /\
    Rabs da <= d /\ 0 <= d.
Proof.
  destruct (preserves_length_single a p Ha) as [da [Hva Hca]].
  rewrite (op_sub_single a a p da da Hva Hva). cbv zeta.
  rewrite std_max_same.
  assert (Hd : Rabs da
               <= (if Req_dec_T (SDF3.getK a) 0
                   then SDF3.hard_difference da da
                   else SDF3.smooth_difference (SDF3.getK a) da da)).
  { destruct (Req_dec_T (SDF3.getK a) 0) as [E | N].
    - rewrite hard_difference_self. lra.
    - rewrite smooth_difference_as_intersection.
      apply Rle_trans with (Rmax (- da) da).
      + unfold Rmax, Rabs. destruct (Rle_dec (- da) da), (Rcase_abs da); lra.
      + apply smooth_intersection_ge_max. lra. }
  eexists. exists da. repeat split; try eassumption; try reflexivity.
  apply Rle_trans with (Rabs da); [apply Rabs_pos | exact Hd].
Qed.

Lemma X3_difference_with_itself_witness :
  0 <= SDF3.getK (SDF3.of_function Vector3.x) /\
  exists d da : R,
    SDF3.op_call (SDF3.of_function Vector3.x) (Vector3.mk 3 0 0) = Some da /\
    SDF3.op_call (SDF3.op_sub (SDF3.of_function Vector3.x)
                    (SDF3.of_function Vector3.x)) (Vector3.mk 3 0 0)
      = Some d /\
    Rabs da <= d /\ 0 <= d.
Proof.
  assert (H : 0 <= SDF3.getK (SDF3.of_function Vector3.x)) by (simpl; lra).
  split; [exact H |].
  apply (X3_difference_with_itself (SDF3.of_function Vector3.x)
           (Vector3.mk 3 0 0) H).
  apply wrapFunction_preserves_length.
Defined.

Lemma smooth_union_negative (k a b : R) :
  k <> 0 -> SDF3.smooth_union k a b = SDF3.smooth_intersection (- k) a b.
Proof.
  intros Hk. unfold SDF3.smooth_union, SDF3.smooth_intersection.
  replace (0.5 - 0.5 * (b - a) / - k) with (0.5 + 0.5 * (b - a) / k)
    by (field; exact Hk).
  ring.
Qed.

(** X4. A negative smoothing value is not rejected: when the larger tag
    [k] of the operands is negative, [a | b] takes the smooth branch and
    answers as the smooth intersection of radius [-k], at least
    [max(a(p), b(p))]. *)
Theorem X4_negative_tag_union (a b : SDF3.t) (p : Vector3.t)
    (Hk : Rmax (SDF3.getK a) (SDF3.getK b) < 0)
    (Ha : preserves_length a) (Hb : preserves_length b) :
  exists d da db : R,
    SDF3.op_call a p = Some da /\
    SDF3.op_call b p = Some db /\
    SDF3.op_call (SDF3.op_or a b) p = Some d /\
    SDF3.op_call
      (Operations.intersection a b (- Rmax (SDF3.getK a) (SDF3.getK b))) p
      = Some d /\
    Rmax da db <= d.
Proof.
  destruct (preserves_length_single a p Ha) as [da [Hva Hca]].
  destruct (preserves_length_single b p Hb) as [db [Hvb Hcb]].
  set (k := Rmax (SDF3.getK a) (SDF3.getK b)) in *.
  exists (SDF3.smooth_intersection (- k) da db), da, db.
  split; [exact Hca | split; [exact Hcb |]].
  split; [| split].
  - rewrite (op_or_single a b p da db Hva Hvb). cbv zeta.
    rewrite std_max_Rmax. fold k.
    destruct (Req_dec_T k 0); [lra |].
    now rewrite smooth_union_negative.
  - unfold Operations.intersection. destruct (Rlt_dec 0 (- k)); [| lra].
    rewrite (op_and_single (SDF3.k a (- k)) (SDF3.k b (- k)) p da db Hva Hvb).
    simpl. rewrite std_max_same.
    destruct (Req_dec_T (- k) 0); [lra | reflexivity].
  - apply smooth_intersection_ge_max. lra.
Qed.

Lemma X4_negative_tag_union_witness :
  Rmax (SDF3.getK (SDF3.k (SDF3.of_function Vector3.x) (-1)))
       (SDF3.getK (SDF3.k (SDF3.of_function Vector3.y) (-1))) < 0 /\
  exists d da db : R,
    SDF3.op_call (SDF3.k (SDF3.of_function Vector3.x) (-1)) ORIGIN
      = Some da /\
    SDF3.op_call (SDF3.k (SDF3.of_function Vector3.y) (-1)) ORIGIN
      = Some db /\
    SDF3.op_call (SDF3.op_or (SDF3.k (SDF3.of_function Vector3.x) (-1))
                    (SDF3.k (SDF3.of_function Vector3.y) (-1))) ORIGIN
      = Some d /\
    SDF3.op_call
      (Operations.intersection
         (SDF3.k (SDF3.of_function Vector3.x) (-1))
         (SDF3.k (SDF3.of_function Vector3.y) (-1))
         (- Rmax (SDF3.getK (SDF3.k (SDF3.of_function Vector3.x) (-1)))
                 (SDF3.getK (SDF3.k (SDF3.of_function Vector3.y) (-1)))))
      ORIGIN = Some d /\
    Rmax da db <= d.
Proof.
  assert (H : Rmax (SDF3.getK (SDF3.k (SDF3.of_function Vector3.x) (-1)))
                   (SDF3.getK (SDF3.k (SDF3.of_function Vector3.y) (-1))) < 0).
  { simpl. rewrite Rmax_left; lra. }
  split; [exact H |].
  apply (X4_negative_tag_union
           (SDF3.k (SDF3.of_function Vector3.x) (-1))
           (SDF3.k (SDF3.of_function Vector3.y) (-1)) ORIGIN H).
  - apply k_preserves_length, wrapFunction_preserves_length.
  - apply k_preserves_length, wrapFunction_preserves_length.
Defined.

(** ** Batch preservation through the operators *)

Lemma premap_preserves_length (f : SDF3.t) (g : Vector3.t -> Vector3.t) :
  preserves_length f ->
  preserves_length
    (SDF3.of_vector (fun points => SDF3.getFunction f (map g points))).
Proof.
  intros H points. destruct (H (map g points)) as [out [Hev Hl]].
  exists out. split; [exact Hev |]. now rewrite Hl, length_map.
Qed.

Lemma postmap_preserves_length (f : SDF3.t) (g : Vector3.t -> Vector3.t)
    (h : R -> R) :
  preserves_length f ->
  preserves_length
    (SDF3.of_vector (fun points =>
       result <- SDF3.getFunction f (map g points) ;;
       Some (map h result))).
Proof.
  intros H points. destruct (H (map g points)) as [out [Hev Hl]].
  exists (map h out). unfold SDF3.evaluate in *. simpl.
  unfold SDF3.getFunction. rewrite Hev. simpl.
  split; [reflexivity |]. now rewrite !length_map in *.
Qed.

Lemma postmap_id_preserves_length (f : SDF3.t) (h : R -> R) :
  preserves_length f ->
  preserves_length
    (SDF3.of_vector (fun points =>
       result <- SDF3.getFunction f points ;;
       Some (map h result))).
Proof.
  intros H points. destruct (H points) as [out [Hev Hl]].
  exists (map h out). unfold SDF3.evaluate in *. simpl.
  unfold SDF3.getFunction. rewrite Hev. simpl.
  split; [reflexivity |]. now rewrite length_map.
Qed.

Lemma combine_preserves_length hard smooth (a b : SDF3.t) (k : R) :
  preserves_length a -> preserves_length b ->
  preserves_length
    (SDF3.of_vector
       (SDF3.combine hard smooth (SDF3.vecFunc_ a) (SDF3.vecFunc_ b) k)).
Proof.
  intros Ha Hb points.
  destruct (Ha points) as [va [Hva Hla]].
  destruct (Hb points) as [vb [Hvb Hlb]].
  unfold SDF3.evaluate. cbn [SDF3.vecFunc_ SDF3.of_vector].
  rewrite (combine_batch _ _ _ _ _ points va vb Hva Hvb Hla Hlb).
  eexists. split; [reflexivity |].
  now rewrite length_map, length_seq.
Qed.

Lemma addEach_same_length (corrections : list R) :
  forall result : list R,
    List.length result = List.length corrections ->
    exists out,
      Operations.addEach corrections result = Some out /\
      List.length out = List.length corrections /\
      forall i, nth i out 0 = nth i result 0 + nth i corrections 0.
Proof.
  induction corrections as [| c cs IH]; intros result Hl.
  - destruct result; [| discriminate]. exists []. simpl.
    repeat split. intros i. destruct i; simpl; lra.
  - destruct result as [| r rs]; [discriminate |]. simpl in Hl.
    destruct (IH rs) as [out [Hout [Hlo Hnth]]]; [lia |].
    exists ((r + c) :: out). simpl. rewrite Hout. simpl.
    repeat split; [now rewrite Hlo |].
    intros i. destruct i; [reflexivity | apply Hnth].
Qed.

Lemma blend_batch (a b : SDF3.t) (k : R) (points : list Vector3.t)
    (va vb : list R) :
  SDF3.vecFunc_ a points = Some va -> SDF3.vecFunc_ b points = Some vb ->
  List.length va = List.length points ->
  List.length vb = List.length points ->
  SDF3.evaluate (Operations.blend a b k) points
  = Some (map (fun i => nth i va 0 * (1 - k) + nth i vb 0 * k)
            (seq 0 (List.length points))).
Proof.
  intros Ha Hb Hla Hlb.
  unfold SDF3.evaluate, Operations.blend, SDF3.getFunction.
  cbn [SDF3.vecFunc_ SDF3.of_vector]. rewrite Ha, Hb. cbn [bind].
  unfold for_index. apply push_each_total. intros i Hi.
  apply in_seq in Hi. unfold at_.
  rewrite (nth_error_nth' va 0) by lia.
  rewrite (nth_error_nth' vb 0) by lia. reflexivity.
Qed.

(** X5. Every combinator keeps the invariant "one distance per point": the
    three boolean operators, [translate], both [scale]s, [rotate],
    [twist], [bend], [elongate], [dilate], [erode], [shell], [repeatOp]
    and [blend] applied to length-preserving fields give a
    length-preserving field. *)
Theorem X5_operators_preserve_length (a b : SDF3.t)
    (Ha : preserves_length a) (Hb : preserves_length b) :
  preserves_length (SDF3.op_or a b) /\
  preserves_length (SDF3.op_and a b) /\
  preserves_length (SDF3.op_sub a b) /\
  (forall offset, preserves_length (Operations.translate a offset)) /\
  (forall factor : R, preserves_length (Operations.scale a factor)) /\
  (forall factor : Vector3.t, preserves_length (Operations.scale_v a factor)) /\
  (forall angle axis,
      exists g, Operations.rotate a angle axis = Returned g /\
                preserves_length g) /\
  (forall k, preserves_length (Operations.twist a k)) /\
  (forall k, preserves_length (Operations.bend a k)) /\
  (forall h, preserves_length (Operations.elongate a h)) /\
  (forall r, preserves_length (Operations.dilate a r)) /\
  (forall r, preserves_length (Operations.erode a r)) /\
  (forall t, preserves_length (Operations.shell a t)) /\
  (forall spacing count,
      preserves_length (Operations.repeatOp a spacing count)) /\
  (forall k, preserves_length (Operations.blend a b k)).
Proof.
  repeat match goal with |- _ /\ _ => split end.
  - now apply combine_preserves_length.
  - now apply combine_preserves_length.
  - now apply combine_preserves_length.
  - intros offset. now apply premap_preserves_length.
  - intros factor. now apply postmap_preserves_length.
  - intros factor. now apply premap_preserves_length.
  - intros angle axis. eexists. split; [reflexivity |].
    now apply premap_preserves_length.
  - intros k. now apply premap_preserves_length.
  - intros k. now apply premap_preserves_length.
  - intros h points.
    destruct (Ha (map (Operations.elongatePoint h) points))
      as [out [Hev Hl]].
    rewrite length_map in Hl.
    destruct (addEach_same_length
                (map (Operations.elongateCorrection h) points) out)
      as [res [Hres [Hlr _]]]; [now rewrite length_map |].
    exists res. unfold SDF3.evaluate, Operations.elongate, SDF3.getFunction.
    cbn [SDF3.vecFunc_ SDF3.of_vector].
    unfold SDF3.evaluate in Hev. rewrite Hev. cbn [bind].
    split; [exact Hres |]. now rewrite Hlr, length_map.
  - intros r. now apply postmap_id_preserves_length.
  - intros r. now apply postmap_id_preserves_length.
  - intros t. now apply postmap_id_preserves_length.
  - intros spacing count. now apply premap_preserves_length.
  - intros k points.
    destruct (Ha points) as [va [Hva Hla]].
    destruct (Hb points) as [vb [Hvb Hlb]].
    rewrite (blend_batch a b k points va vb Hva Hvb Hla Hlb).
    eexists. split; [reflexivity |].
    now rewrite length_map, length_seq.
Qed.

Lemma X5_operators_preserve_length_witness :
  preserves_length (SDF3.op_or (SDF3.of_function Vector3.x)
                               (SDF3.of_function Vector3.y)) /\
  preserves_length (Operations.translate (SDF3.of_function Vector3.x) ORIGIN).
Proof.
  destruct (X5_operators_preserve_length
              (SDF3.of_function Vector3.x) (SDF3.of_function Vector3.y)
              (wrapFunction_preserves_length Vector3.x)
              (wrapFunction_preserves_length Vector3.y))
    as (Hor & _ & _ & Htr & _).
  split; [exact Hor | exact (Htr ORIGIN)].
Defined.

(** ** Smoothing tags *)

(** X6. A smoothing tag does not survive an operator: the field built by
    [translate] or by a union has tag 0.  So a union whose left operand is
    a translated (or an already united) tagged field and whose right
    operand has tag 0 is the hard union, whatever tag was set before. *)
Theorem X6_tag_lost_through_operators (a b c : SDF3.t) (kv : R)
    (offset p : Vector3.t)
    (Ha : preserves_length a) (Hb : preserves_length b)
    (Hc : preserves_length c) (Hkc : SDF3.getK c = 0) :
  SDF3.getK (Operations.translate (SDF3.k a kv) offset) = 0 /\
  SDF3.getK (SDF3.op_or (SDF3.k a kv) b) = 0 /\
  exists dt du dc : R,
    SDF3.op_call (Operations.translate (SDF3.k a kv) offset) p = Some dt /\
    SDF3.op_call (SDF3.op_or (SDF3.k a kv) b) p = Some du /\
    SDF3.op_call c p = Some dc /\
    SDF3.op_call
      (SDF3.op_or (Operations.translate (SDF3.k a kv) offset) c) p
      = Some (Rmin dt dc) /\
    SDF3.op_call (SDF3.op_or (SDF3.op_or (SDF3.k a kv) b) c) p
      = Some (Rmin du dc).
Proof.
  split; [reflexivity | split; [reflexivity |]].
  assert (Hak : preserves_length (SDF3.k a kv)) by now apply k_preserves_length.
  assert (Ht : preserves_length (Operations.translate (SDF3.k a kv) offset)).
  { now apply premap_preserves_length. }
  assert (Hu : preserves_length (SDF3.op_or (SDF3.k a kv) b)).
  { now apply op_or_preserves_length. }
  destruct (preserves_length_single _ p Ht) as [dt [Hvt Hct]].
  destruct (preserves_length_single _ p Hu) as [du [Hvu Hcu]].
  destruct (preserves_length_single _ p Hc) as [dc [Hvc Hcc]].
  exists dt, du, dc.
  split; [exact Hct | split; [exact Hcu | split; [exact Hcc |]]].
  split.
  - rewrite (op_or_single _ c p dt dc Hvt Hvc). cbv zeta.
    rewrite Hkc. change (SDF3.getK (Operations.translate _ _)) with 0.
    rewrite std_max_same. destruct (Req_dec_T 0 0) as [_ | N]; [| now elim N].
    unfold SDF3.hard_union. now rewrite std_min_Rmin.
  - rewrite (op_or_single _ c p du dc Hvu Hvc). cbv zeta.
    rewrite Hkc. change (SDF3.getK (SDF3.op_or _ _)) with 0.
    rewrite std_max_same. destruct (Req_dec_T 0 0) as [_ | N]; [| now elim N].
    unfold SDF3.hard_union. now rewrite std_min_Rmin.
Qed.

Lemma X6_tag_lost_through_operators_witness :
  SDF3.getK (SDF3.of_function Vector3.z) = 0 /\
  SDF3.getK (Operations.translate (SDF3.k (SDF3.of_function Vector3.x) 1)
               ORIGIN) = 0.
Proof.
  split; [reflexivity |].
  exact (proj1 (X6_tag_lost_through_operators
                  (SDF3.of_function Vector3.x) (SDF3.of_function Vector3.y)
                  (SDF3.of_function Vector3.z) 1 ORIGIN ORIGIN
                  (wrapFunction_preserves_length Vector3.x)
                  (wrapFunction_preserves_length Vector3.y)
                  (wrapFunction_preserves_length Vector3.z)
                  eq_refl)).
Defined.

(** ** Transforms *)

Lemma vec_sub_zero (p : Vector3.t) : (p - Vector3.mk 0 0 0)%vec = p.
Proof. destruct p. unfold Vector3.op_sub. simpl. f_equal; ring. Qed.

(** X7. Translations add up: translating by [a] and then by [b] evaluates
    the operand at [p - b - a], which is [p - (a + b)]; translating by the
    zero vector changes nothing. *)
Theorem X7_translate_composes (f : SDF3.t) (a b : Vector3.t)
    (points : list Vector3.t) :
  SDF3.evaluate (Operations.translate (Operations.translate f a) b) points
    = SDF3.evaluate f (map (fun p => (p - (a + b))%vec) points) /\
  SDF3.evaluate (Operations.translate (Operations.translate f a) b) points
    = SDF3.evaluate (Operations.translate f (a + b)%vec) points /\
  SDF3.evaluate (Operations.translate f (Vector3.mk 0 0 0)) points
    = SDF3.evaluate f points.
Proof.
  unfold SDF3.evaluate, Operations.translate, SDF3.getFunction.
  cbn [SDF3.vecFunc_ SDF3.of_vector].
  assert (E : map (fun p => (p - a)%vec) (map (fun p => (p - b)%vec) points)
              = map (fun p => (p - (a + b))%vec) points).
  { rewrite map_map. apply map_ext. intros p.
    unfold Vector3.op_sub, Vector3.op_add. simpl. f_equal; ring. }
  split; [now rewrite E | split; [now rewrite E |]].
  f_equal. rewrite <- (map_id points) at 2.
  apply map_ext. intros p. apply vec_sub_zero.
Qed.

(** X8. Uniform scales multiply: scaling by [s] and then by [t], both not
    zero, is scaling by [s * t]. *)
Theorem X8_scale_composes (f : SDF3.t) (s t : R) (points : list Vector3.t)
    (Hs : s <> 0) (Ht : t <> 0) :
  SDF3.evaluate (Operations.scale (Operations.scale f s) t) points
  = SDF3.evaluate (Operations.scale f (s * t)) points.
Proof.
  unfold SDF3.evaluate, Operations.scale, SDF3.getFunction.
  cbn [SDF3.vecFunc_ SDF3.of_vector].
  rewrite map_map.
  replace (map (fun p => p /^ t /^ s) points)
    with (map (fun p => p /^ (s * t)) points).
  2: { apply map_ext. intros p. unfold Vector3.op_div. simpl.
       f_equal; field; split; assumption. }
  destruct (SDF3.vecFunc_ f (map (fun p => p /^ (s * t)) points))
    as [out |]; cbn [bind]; [| reflexivity].
  f_equal. rewrite map_map. apply map_ext. intros r. ring.
Qed.

Lemma X8_scale_composes_witness :
  2 <> 0 /\ 3 <> 0 /\
  SDF3.evaluate (Operations.scale
                   (Operations.scale (SDF3.of_function Vector3.x) 2) 3)
    [Vector3.mk 6 0 0]
  = SDF3.evaluate (Operations.scale (SDF3.of_function Vector3.x) (2 * 3))
      [Vector3.mk 6 0 0].
Proof.
  assert (H2 : 2 <> 0) by lra. assert (H3 : 3 <> 0) by lra.
  split; [exact H2 | split; [exact H3 |]].
  exact (X8_scale_composes (SDF3.of_function Vector3.x) 2 3
           [Vector3.mk 6 0 0] H2 H3).
Defined.

(** X9. [erode] undoes [dilate]: eroding by [r] a field dilated by [r]
    gives back the distances of the operand, and two dilations add up. *)
Theorem X9_dilate_erode_round_trip (f : SDF3.t) (r r' : R)
    (points : list Vector3.t) :
  SDF3.evaluate (Operations.erode (Operations.dilate f r) r) points
    = SDF3.evaluate f points /\
  SDF3.evaluate (Operations.dilate (Operations.dilate f r) r') points
    = SDF3.evaluate (Operations.dilate f (r + r')) points.
Proof.
  unfold SDF3.evaluate, Operations.erode, Operations.dilate, SDF3.getFunction.
  cbn [SDF3.vecFunc_ SDF3.of_vector].
  destruct (SDF3.vecFunc_ f points) as [out |]; cbn [bind];
    [| split; reflexivity].
  split; f_equal; rewrite map_map.
  - rewrite <- (map_id out) at 2. apply map_ext. intros d. ring.
  - apply map_ext. intros d. ring.
Qed.

(** ** Rotations *)

Lemma length_nonneg (a : Vector3.t) : 0 <= Vector3.length a.
Proof. unfold Vector3.length. apply sqrt_pos. Qed.

Lemma length_squared (a : Vector3.t) :
  Vector3.length a * Vector3.length a = Vector3.lengthSquared a.
Proof.
  unfold Vector3.length, Vector3.lengthSquared.
  apply sqrt_sqrt. nra.
Qed.

(** Above the threshold [normalized] returns a unit vector. *)
Lemma normalized_unit (a : Vector3.t) :
  ~ Vector3.length a < 1e-10 ->
  Vector3.lengthSquared (Vector3.normalized a) = 1.
Proof.
  intros H. unfold Vector3.normalized.
  destruct (Rlt_dec (Vector3.length a) 1e-10); [contradiction |].
  assert (Hl : Vector3.length a <> 0) by lra.
  pose proof (length_squared a) as Hs.
  unfold Vector3.lengthSquared in *. unfold Vector3.op_div. simpl.
  set (l := Vector3.length a) in *.
  replace (Vector3.x a / l * (Vector3.x a / l) +
           Vector3.y a / l * (Vector3.y a / l) +
           Vector3.z a / l * (Vector3.z a / l))
    with ((Vector3.x a * Vector3.x a + Vector3.y a * Vector3.y a +
           Vector3.z a * Vector3.z a) / (l * l))
    by (field; exact Hl).
  rewrite <- Hs. field. exact Hl.
Qed.

Lemma rotatePoint_isometry (a p : Vector3.t) (angle : R) :
  Vector3.lengthSquared a = 1 ->
  Vector3.lengthSquared
    (Operations.rotatePoint a (cos angle) (sin angle) (1 - cos angle) p)
  = Vector3.lengthSquared p.
Proof.
  intros Ha. pose proof (sin2_cos2 angle) as Hsc. unfold Rsqr in Hsc.
  destruct a as [ax ay az], p as [px py pz].
  unfold Vector3.lengthSquared, Operations.rotatePoint in *. simpl in *.
  set (c := cos angle) in *. set (s := sin angle) in *.
  nsatz.
Qed.

(** X10. With an axis of length at least [1e-10], [rotate] queries its
    operand at a point as far from the origin as the point asked for; a
    sphere about the origin is therefore unchanged by any such rotation. *)
Theorem X10_rotate_is_isometry (angle radius : R) (axis : Vector3.t)
    (Haxis : ~ Vector3.length axis < 1e-10) :
  (forall p,
      Vector3.length
        (Operations.rotatePoint (Vector3.normalized axis)
           (cos angle) (sin angle) (1 - cos angle) p)
      = Vector3.length p) /\
  exists g,
    Operations.rotate (Primitives.sphere_r radius) angle axis = Returned g /\
    forall points,
      SDF3.evaluate g points
      = SDF3.evaluate (Primitives.sphere_r radius) points.
Proof.
  assert (Hiso : forall p,
             Vector3.length
               (Operations.rotatePoint (Vector3.normalized axis)
                  (cos angle) (sin angle) (1 - cos angle) p)
             = Vector3.length p).
  { intros p.
    pose proof (rotatePoint_isometry (Vector3.normalized axis) p angle
                  (normalized_unit axis Haxis)) as H.
    unfold Vector3.length. unfold Vector3.lengthSquared in H.
    now rewrite H. }
  split; [exact Hiso |].
  unfold Operations.rotate. eexists. split; [reflexivity |].
  intros points.
  unfold SDF3.evaluate, SDF3.getFunction, Primitives.sphere_r,
    Primitives.sphere, SDF3.of_function, SDF3.wrapFunction.
  cbn [SDF3.vecFunc_ SDF3.of_vector].
  f_equal. rewrite map_map. apply map_ext. intros p.
  unfold ORIGIN. rewrite !vec_sub_zero. now rewrite Hiso.
Qed.

Lemma X10_rotate_is_isometry_witness :
  ~ Vector3.length (Vector3.mk 0 0 1) < 1e-10 /\
  exists g,
    Operations.rotate (Primitives.sphere_r 1) 2 (Vector3.mk 0 0 1)
      = Returned g /\
    forall points,
      SDF3.evaluate g points = SDF3.evaluate (Primitives.sphere_r 1) points.
Proof.
  assert (H : ~ Vector3.length (Vector3.mk 0 0 1) < 1e-10).
  { unfold Vector3.length. simpl.
    replace (0 * 0 + 0 * 0 + 1 * 1) with 1 by ring. rewrite sqrt_1. lra. }
  split; [exact H |].
  exact (proj2 (X10_rotate_is_isometry 2 1 (Vector3.mk 0 0 1) H)).
Defined.

(** X11. A rotation by angle 0 changes nothing, whatever the axis is (a
    vanishing axis included). *)
Theorem X11_rotate_by_zero (sdf : SDF3.t) (axis : Vector3.t) :
  exists g,
    Operations.rotate sdf 0 axis = Returned g /\
    forall points, SDF3.evaluate g points = SDF3.evaluate sdf points.
Proof.
  unfold Operations.rotate. eexists. split; [reflexivity |].
  intros points. unfold SDF3.evaluate, SDF3.getFunction.
  cbn [SDF3.vecFunc_ SDF3.of_vector]. f_equal.
  rewrite <- (map_id points) at 2. apply map_ext. intros p.
  rewrite cos_0, sin_0. destruct p as [px py pz].
  unfold Operations.rotatePoint. simpl. f_equal; ring.
Qed.

Lemma normalized_along_z (c : R) :
  1e-10 <= c ->
  Vector3.normalized (Vector3.mk 0 0 c) = Vector3.mk 0 0 1 /\
  Vector3.normalized (Vector3.mk 0 0 (- c)) = Vector3.mk 0 0 (-1).
Proof.
  intros Hc.
  assert (L1 : Vector3.length (Vector3.mk 0 0 c) = c).
  { unfold Vector3.length. simpl.
    replace (0 * 0 + 0 * 0 + c * c) with (c * c) by ring.
    apply sqrt_square. lra. }
  assert (L2 : Vector3.length (Vector3.mk 0 0 (- c)) = c).
  { unfold Vector3.length. simpl.
    replace (0 * 0 + 0 * 0 + - c * - c) with (c * c) by ring.
    apply sqrt_square. lra. }
  unfold Vector3.normalized. rewrite L1, L2.
  destruct (Rlt_dec c 1e-10); [lra |].
  unfold Vector3.op_div. simpl. split; f_equal; field; lra.
Qed.

(** X12. [orient] towards [+Z] returns the operand itself; towards [-Z] it
    returns the half turn about the X axis, which queries the operand at
    [(x, -y, -z)]. *)
Theorem X12_orient_along_z (sdf : SDF3.t) (c : R) (Hc : 1e-10 <= c) :
  Operations.orient sdf (Vector3.mk 0 0 c) = Returned sdf /\
  exists g,
    Operations.orient sdf (Vector3.mk 0 0 (- c)) = Returned g /\
    forall points,
      SDF3.evaluate g points
      = SDF3.evaluate sdf
          (map (fun p => Vector3.mk (Vector3.x p) (- Vector3.y p)
                           (- Vector3.z p)) points).
Proof.
  destruct (normalized_along_z c Hc) as [Np Nm].
  split.
  - unfold Operations.orient. rewrite Np.
    destruct (Rlt_dec _ _) as [_ | N]; [reflexivity |].
    exfalso. apply N. unfold Vector3.lengthSquared, Z_axis. simpl. lra.
  - unfold Operations.orient. rewrite Nm.
    destruct (Rlt_dec _ _) as [H | _].
    { exfalso. revert H. unfold Vector3.lengthSquared, Z_axis. simpl. lra. }
    destruct (Rlt_dec _ _) as [_ | N].
    2: { exfalso. apply N. unfold Vector3.lengthSquared, Z_axis. simpl. lra. }
    destruct (Rlt_dec _ _) as [_ | N].
    2: { exfalso. apply N. unfold Z_axis. simpl. rewrite Rabs_R0. lra. }
    unfold Operations.rotate. eexists. split; [reflexivity |].
    intros points. unfold SDF3.evaluate, SDF3.getFunction.
    cbn [SDF3.vecFunc_ SDF3.of_vector]. f_equal.
    apply map_ext. intros p.
    assert (Nx : Vector3.normalized (Vector3.mk 1 0 0) = Vector3.mk 1 0 0).
    { unfold Vector3.normalized, Vector3.length. simpl.
      replace (1 * 1 + 0 * 0 + 0 * 0) with 1 by ring. rewrite sqrt_1.
      destruct (Rlt_dec 1 1e-10); [lra |].
      unfold Vector3.op_div. simpl. f_equal; field. }
    rewrite Nx, cos_PI, sin_PI.
    unfold Operations.rotatePoint. simpl. f_equal; ring.
Qed.

Lemma X12_orient_along_z_witness :
  1e-10 <= 2 /\
  Operations.orient SDF3.default (Vector3.mk 0 0 2) = Returned SDF3.default.
Proof.
  assert (H : 1e-10 <= 2) by lra.
  split; [exact H |].
  exact (proj1 (X12_orient_along_z SDF3.default 2 H)).
Defined.

(** ** Deformations *)




Lemma std_max_nonpos (q : R) : q <= 0 -> std_max q 0 = 0.
Proof. intros H. unfold std_max. destruct (Rlt_dec q 0); lra. Qed.

Lemma signed_abs (v : R) :
  std_max (Rabs v - 0) 0 * (if Rge_dec v 0 then 1 else -1) = v.
Proof.
  unfold std_max, Rabs.
  destruct (Rcase_abs v), (Rge_dec v 0); try lra;
    match goal with |- context [Rlt_dec ?a ?b] => destruct (Rlt_dec a b) end;
    lra.
Qed.

Lemma length_abs (p : Vector3.t) :
  Vector3.length (Vector3.abs p) = Vector3.length p.
Proof.
  unfold Vector3.length, Vector3.abs. simpl. f_equal.
  rewrite <- !Rsqr_def, <- !Rsqr_abs. reflexivity.
Qed.

(** X14. Inside the elongation box ([|p| <= h] on every axis) [elongate]
    answers with the operand's distance at the origin, the same for every
    such point.  With [h = 0] it is not the identity: it answers
    [f(q) + |q|]. *)
Theorem X14_elongate_inside_and_zero (f : SDF3.t) (h p : Vector3.t)
    (Hf : preserves_length f)
    (Hx : Rabs (Vector3.x p) <= Vector3.x h)
    (Hy : Rabs (Vector3.y p) <= Vector3.y h)
    (Hz : Rabs (Vector3.z p) <= Vector3.z h) :
  SDF3.op_call (Operations.elongate f h) p
    = SDF3.op_call f (Vector3.mk 0 0 0) /\
  forall q,
    exists d,
      SDF3.op_call f q = Some d /\
      SDF3.op_call (Operations.elongate f (Vector3.mk 0 0 0)) q
      = Some (d + Vector3.length q).
Proof.
  split.
  - destruct (preserves_length_single f (Vector3.mk 0 0 0) Hf)
      as [d [Hv Hc]].
    rewrite Hc.
    unfold SDF3.op_call, Operations.elongate, SDF3.getFunction.
    cbn [SDF3.vecFunc_ SDF3.of_vector map].
    assert (Ep : Operations.elongatePoint h p = Vector3.mk 0 0 0).
    { unfold Operations.elongatePoint, Vector3.abs, Vector3.op_sub. simpl.
      rewrite !std_max_nonpos by lra. f_equal; ring. }
    assert (Ec : Operations.elongateCorrection h p = 0).
    { unfold Operations.elongateCorrection, Vector3.abs, Vector3.op_sub,
        Vector3.max. simpl.
      rewrite !std_max_nonpos by lra. apply length_zero. }
    rewrite Ep, Ec, Hv. cbn [bind Operations.addEach].
    f_equal. ring.
  - intros q.
    destruct (preserves_length_single f q Hf) as [d [Hv Hc]].
    exists d. split; [exact Hc |].
    unfold SDF3.op_call, Operations.elongate, SDF3.getFunction.
    cbn [SDF3.vecFunc_ SDF3.of_vector map].
    assert (Ep : Operations.elongatePoint (Vector3.mk 0 0 0) q = q).
    { destruct q as [qx qy qz].
      unfold Operations.elongatePoint, Vector3.abs, Vector3.op_sub. simpl.
      now rewrite !signed_abs. }
    assert (Ec : Operations.elongateCorrection (Vector3.mk 0 0 0) q
                 = Vector3.length q).
    { unfold Operations.elongateCorrection.
      rewrite vec_sub_zero.
      replace (Vector3.max (Vector3.abs q) (Vector3.mk 0 0 0))
        with (Vector3.abs q); [apply length_abs |].
      unfold Vector3.max, Vector3.abs, std_max. simpl.
      f_equal;
        match goal with |- context [Rlt_dec ?a ?b] => destruct (Rlt_dec a b) end;
        try reflexivity;
        match goal with H : Rabs ?v < 0 |- _ =>
          pose proof (Rabs_pos v); lra end. }
    rewrite Ep, Ec, Hv. reflexivity.
Qed.

Lemma X14_elongate_inside_and_zero_witness :
  Rabs 0 <= 1 /\
  SDF3.op_call
    (Operations.elongate (SDF3.of_function Vector3.x) (Vector3.mk 1 1 1))
    (Vector3.mk 0 0 0)
  = SDF3.op_call (SDF3.of_function Vector3.x) (Vector3.mk 0 0 0).
Proof.
  assert (H : Rabs 0 <= 1) by (rewrite Rabs_R0; lra).
  split; [exact H |].
  exact (proj1 (X14_elongate_inside_and_zero (SDF3.of_function Vector3.x)
                  (Vector3.mk 1 1 1) (Vector3.mk 0 0 0)
                  (wrapFunction_preserves_length Vector3.x) H H H)).
Defined.

(** ** Repetition, blending, circular arrays *)

Lemma std_round_near (v : R) : Rabs (v - std_round v) <= 0.5.
Proof.
  unfold std_round. destruct (Rle_dec 0 v).
  - pose proof (Zfloor_bound (v + 0.5)) as [H1 H2].
    apply Rabs_le. lra.
  - pose proof (Zfloor_bound (- v + 0.5)) as [H1 H2].
    apply Rabs_le. lra.
Qed.

Lemma repeatAxis_unbounded (p spacing count : R) :
  spacing <> 0 -> ~ count < 1e8 ->
  Rabs (Operations.repeatAxis p spacing count) <= Rabs spacing / 2.
Proof.
  intros Hs Hc. unfold Operations.repeatAxis.
  destruct (Rlt_dec count 1e8); [contradiction |].
  replace (p - std_round (p / spacing) * spacing)
    with (spacing * (p / spacing - std_round (p / spacing)))
    by (field; exact Hs).
  rewrite Rabs_mult.
  pose proof (std_round_near (p / spacing)).
  pose proof (Rabs_pos spacing). nra.
Qed.

Lemma repeatAxis_count_zero (p spacing : R) :
  Operations.repeatAxis p spacing 0 = p.
Proof.
  unfold Operations.repeatAxis.
  destruct (Rlt_dec 0 1e8); [| lra].
  replace (clamp (std_round (p / spacing)) (- 0) 0) with 0; [ring |].
  unfold clamp, std_max, std_min.
  repeat match goal with
         | |- context [Rlt_dec ?a ?b] => destruct (Rlt_dec a b)
         end; lra.
Qed.

(** X15. Unbounded repetition (every count at least [1e8], every spacing
    not zero) folds each query point into the cell around the origin: the
    operand is asked at a point whose coordinates are at most half a
    spacing in absolute value.  With every count 0 nothing is repeated. *)
Theorem X15_repeat_folds_into_cell (func : SDF3.Function)
    (spacing count p : Vector3.t)
    (Hsx : Vector3.x spacing <> 0) (Hsy : Vector3.y spacing <> 0)
    (Hsz : Vector3.z spacing <> 0)
    (Hcx : ~ Vector3.x count < 1e8) (Hcy : ~ Vector3.y count < 1e8)
    (Hcz : ~ Vector3.z count < 1e8) :
  (exists q,
      SDF3.op_call (Operations.repeatOp (SDF3.of_function func) spacing count) p
        = Some (func q) /\
      Rabs (Vector3.x q) <= Rabs (Vector3.x spacing) / 2 /\
      Rabs (Vector3.y q) <= Rabs (Vector3.y spacing) / 2 /\
      Rabs (Vector3.z q) <= Rabs (Vector3.z spacing) / 2) /\
  SDF3.op_call
    (Operations.repeatOp (SDF3.of_function func) spacing (Vector3.mk 0 0 0)) p
  = Some (func p).
Proof.
  split.
  - eexists. split; [reflexivity |]. simpl.
    repeat split; now apply repeatAxis_unbounded.
  - unfold SDF3.op_call, Operations.repeatOp, SDF3.getFunction,
      SDF3.of_function, SDF3.wrapFunction.
    cbn [SDF3.vecFunc_ SDF3.of_vector map bind Vector3.x Vector3.y Vector3.z].
    rewrite !repeatAxis_count_zero. now destruct p.
Qed.

Lemma X15_repeat_folds_into_cell_witness :
  2 <> 0 /\ ~ 1e9 < 1e8 /\
  exists q,
    SDF3.op_call (Operations.repeatOp (SDF3.of_function Vector3.x)
                    (Vector3.mk 2 2 2) (Vector3.mk 1e9 1e9 1e9))
                 (Vector3.mk 7 0 0)
      = Some (Vector3.x q) /\
    Rabs (Vector3.x q) <= Rabs 2 / 2.
Proof.
  assert (H2 : 2 <> 0) by lra. assert (Hc : ~ 1e9 < 1e8) by lra.
  split; [exact H2 | split; [exact Hc |]].
  destruct (proj1 (X15_repeat_folds_into_cell Vector3.x (Vector3.mk 2 2 2)
                     (Vector3.mk 1e9 1e9 1e9) (Vector3.mk 7 0 0)
                     H2 H2 H2 Hc Hc Hc)) as [q [Hq [Hx _]]].
  exists q. split; [exact Hq | exact Hx].
Defined.

Lemma map_nth_seq (l : list R) :
  map (fun i => nth i l 0) (seq 0 (List.length l)) = l.
Proof.
  apply nth_ext with (d := 0) (d' := 0).
  - now rewrite length_map, length_seq.
  - intros n Hn. rewrite length_map, length_seq in Hn.
    rewrite (nth_indep _ 0 (nth 0 l 0))
      by (now rewrite length_map, length_seq).
    rewrite (map_nth (fun i => nth i l 0)).
    now rewrite seq_nth.
Qed.

(** X16. [blend] with weight 0 answers as its first operand and with
    weight 1 as its second. *)
Theorem X16_blend_end_points (a b : SDF3.t) (points : list Vector3.t)
    (Ha : preserves_length a) (Hb : preserves_length b) :
  SDF3.evaluate (Operations.blend a b 0) points = SDF3.evaluate a points /\
  SDF3.evaluate (Operations.blend a b 1) points = SDF3.evaluate b points.
Proof.
  destruct (Ha points) as [va [Hva Hla]].
  destruct (Hb points) as [vb [Hvb Hlb]].
  rewrite !(blend_batch a b _ points va vb Hva Hvb Hla Hlb).
  rewrite Hva, Hvb. split; f_equal.
  - transitivity (map (fun i => nth i va 0) (seq 0 (List.length va)));
      [| apply map_nth_seq].
    rewrite Hla. apply map_ext. intros i. ring.
  - transitivity (map (fun i => nth i vb 0) (seq 0 (List.length vb)));
      [| apply map_nth_seq].
    rewrite Hlb. apply map_ext. intros i. ring.
Qed.

Lemma X16_blend_end_points_witness :
  SDF3.evaluate (Operations.blend (SDF3.of_function Vector3.x)
                   (SDF3.of_function Vector3.y) 0) [ORIGIN]
    = SDF3.evaluate (SDF3.of_function Vector3.x) [ORIGIN] /\
  SDF3.evaluate (Operations.blend (SDF3.of_function Vector3.x)
                   (SDF3.of_function Vector3.y) 1) [ORIGIN]
    = SDF3.evaluate (SDF3.of_function Vector3.y) [ORIGIN].
Proof.
  exact (X16_blend_end_points (SDF3.of_function Vector3.x)
           (SDF3.of_function Vector3.y) [ORIGIN]
           (wrapFunction_preserves_length Vector3.x)
           (wrapFunction_preserves_length Vector3.y)).
Defined.

Lemma circularCopy_first (count : Z) (offset : R) (p : Vector3.t) :
  Operations.circularCopy count offset 0 [p] = [p].
Proof.
  unfold Operations.circularCopy. cbn [map].
  replace (2 * PI * 0 / IZR count) with 0 by (unfold Rdiv; ring).
  rewrite cos_0, sin_0. destruct p as [px py pz]. simpl.
  f_equal. f_equal; ring.
Qed.

(** On a single point the loop of [circularArray] only lowers the value it
    starts from. *)
Lemma circularLoop_single (f : SDF3.t) (count : Z) (offset : R)
    (p : Vector3.t) :
  preserves_length f ->
  forall (indices : list Z) (r : R),
    exists r',
      Operations.circularLoop (SDF3.getFunction f) count offset [p]
        indices [r] = Some [r'] /\
      r' <= r.
Proof.
  intros Hf. induction indices as [| i rest IH]; intros r.
  - exists r. split; [reflexivity | lra].
  - cbn [Operations.circularLoop].
    destruct (Hf (Operations.circularCopy count offset i [p]))
      as [out [Hev Hl]].
    unfold SDF3.evaluate in Hev. unfold SDF3.getFunction. rewrite Hev.
    destruct out as [| d [| ? ?]]; try discriminate.
    cbn [bind List.length for_index seq push_each at_ nth_error].
    destruct (IH (std_min r d)) as [r' [Hr' Hle]].
    unfold SDF3.getFunction in Hr'.
    exists r'. split; [exact Hr' |].
    rewrite std_min_Rmin in Hle. pose proof (Rmin_l r d). lra.
Qed.

(** X17. A circular array contains its operand: for [count >= 1] the
    distance it returns at [p] is at most the operand's distance at [p]
    (copy 0 is the operand itself) and at most the start value [1e9].
    With [count <= 0] no copy is made and the field is [1e9] everywhere. *)
Theorem X17_circular_array_contains_operand (f : SDF3.t) (count : Z)
    (offset : R) (p : Vector3.t) (Hf : preserves_length f) :
  ((count <= 0)%Z ->
   SDF3.op_call (Operations.circularArray f count offset) p = Some 1e9) /\
  ((1 <= count)%Z ->
   exists d d0,
     SDF3.op_call f p = Some d0 /\
     SDF3.op_call (Operations.circularArray f count offset) p = Some d /\
     d <= d0 /\ d <= 1e9).
Proof.
  split.
  - intros Hc. unfold SDF3.op_call, Operations.circularArray.
    cbn [SDF3.vecFunc_ SDF3.of_vector].
    replace (Z.to_nat count) with 0%nat by lia. reflexivity.
  - intros Hc.
    destruct (preserves_length_single f p Hf) as [d0 [Hv Hcall]].
    unfold SDF3.op_call at 2. unfold Operations.circularArray.
    cbn [SDF3.vecFunc_ SDF3.of_vector List.length repeat].
    destruct (Z.to_nat count) as [| n] eqn:Hn; [lia |].
    cbn [seq map]. change (Z.of_nat 0) with 0%Z.
    cbn [Operations.circularLoop].
    rewrite circularCopy_first. unfold SDF3.getFunction at 1. rewrite Hv.
    cbn [bind List.length for_index seq push_each at_ nth_error].
    destruct (circularLoop_single f count offset p Hf
                (map Z.of_nat (seq 1 n)) (std_min 1e9 d0)) as [r' [Hr' Hle]].
    rewrite Hr'. cbn [bind].
    exists r', d0. split; [exact Hcall | split; [reflexivity |]].
    rewrite std_min_Rmin in Hle.
    pose proof (Rmin_l 1e9 d0). pose proof (Rmin_r 1e9 d0). lra.
Qed.

Lemma X17_circular_array_contains_operand_witness :
  SDF3.op_call (Operations.circularArray (SDF3.of_function Vector3.x) 0 1)
    ORIGIN = Some 1e9.
Proof.
  apply (proj1 (X17_circular_array_contains_operand
                  (SDF3.of_function Vector3.x) 0 1 ORIGIN
                  (wrapFunction_preserves_length Vector3.x))).
  lia.
Defined.

(** * Properties of the primitives *)

Lemma sqrt_sum_ge_component (a b c : R) :
  0 <= a -> a <= sqrt (a * a + b * b + c * c).
Proof.
  intros Ha. rewrite <- (sqrt_square a) at 1 by exact Ha.
  apply sqrt_le_1_alt. nra.
Qed.

Lemma std_max_ge_l (a b : R) : a <= std_max a b.
Proof. rewrite std_max_Rmax. apply Rmax_l. Qed.

Lemma std_max_ge_r (a b : R) : b <= std_max a b.
Proof. rewrite std_max_Rmax. apply Rmax_r. Qed.

(** The box expression is not positive exactly when no component of [q] is
    positive. *)
Lemma boxDistance_sign (q : Vector3.t) :
  Primitives.boxDistance q <= 0 <->
  Vector3.x q <= 0 /\ Vector3.y q <= 0 /\ Vector3.z q <= 0.
Proof.
  destruct q as [qx qy qz]. unfold Primitives.boxDistance,
    Primitives.max_scalar, Vector3.length. simpl.
  split.
  - intros H.
    assert (Hall : ~ (0 < qx \/ 0 < qy \/ 0 < qz)).
    { intros Hpos.
      assert (Hm : 0 < std_max qx (std_max qy qz)).
      { pose proof (std_max_ge_l qx (std_max qy qz)).
        pose proof (std_max_ge_r qx (std_max qy qz)).
        pose proof (std_max_ge_l qy qz). pose proof (std_max_ge_r qy qz).
        destruct Hpos as [? | [? | ?]]; lra. }
      assert (Hmin : std_min (std_max qx (std_max qy qz)) 0 = 0).
      { unfold std_min.
        destruct (Rlt_dec 0 (std_max qx (std_max qy qz))); lra. }
      rewrite Hmin in H.
      pose proof (std_max_ge_l qx 0). pose proof (std_max_ge_r qx 0).
      pose proof (std_max_ge_l qy 0). pose proof (std_max_ge_r qy 0).
      pose proof (std_max_ge_l qz 0). pose proof (std_max_ge_r qz 0).
      pose proof (sqrt_sum_ge_component (std_max qx 0) (std_max qy 0)
                    (std_max qz 0)).
      pose proof (sqrt_sum_ge_component (std_max qy 0) (std_max qx 0)
                    (std_max qz 0)).
      pose proof (sqrt_sum_ge_component (std_max qz 0) (std_max qx 0)
                    (std_max qy 0)).
      replace (std_max qy 0 * std_max qy 0 + std_max qx 0 * std_max qx 0 +
               std_max qz 0 * std_max qz 0)
        with (std_max qx 0 * std_max qx 0 + std_max qy 0 * std_max qy 0 +
              std_max qz 0 * std_max qz 0) in * by ring.
      replace (std_max qz 0 * std_max qz 0 + std_max qx 0 * std_max qx 0 +
               std_max qy 0 * std_max qy 0)
        with (std_max qx 0 * std_max qx 0 + std_max qy 0 * std_max qy 0 +
              std_max qz 0 * std_max qz 0) in * by ring.
      destruct Hpos as [? | [? | ?]]; lra. }
    repeat split; apply Rnot_lt_le; tauto.
  - intros (Hx & Hy & Hz).
    rewrite !std_max_nonpos by lra.
    replace (0 * 0 + 0 * 0 + 0 * 0) with 0 by ring. rewrite sqrt_0.
    rewrite std_min_Rmin. pose proof (Rmin_r (std_max qx (std_max qy qz)) 0).
    lra.
Qed.

(** X18. The box field has the right sign: [box(size, center)] is not
    positive at [p] exactly when [p] lies within half the size of the
    centre on every axis. *)
Theorem X18_box_sign (size center p : Vector3.t) :
  exists d,
    SDF3.op_call (Primitives.box size center) p = Some d /\
    (d <= 0 <->
     Rabs (Vector3.x p - Vector3.x center) <= Vector3.x size * 0.5 /\
     Rabs (Vector3.y p - Vector3.y center) <= Vector3.y size * 0.5 /\
     Rabs (Vector3.z p - Vector3.z center) <= Vector3.z size * 0.5).
Proof.
  eexists. split; [reflexivity |].
  rewrite boxDistance_sign.
  unfold Vector3.abs, Vector3.op_sub, Vector3.op_mul. simpl.
  split; intros (? & ? & ?); repeat split; lra.
Qed.

Lemma length_div (p : Vector3.t) (s : R) :
  0 < s -> Vector3.length (p /^ s) = Vector3.length p / s.
Proof.
  intros Hs. unfold Vector3.length at 1. unfold Vector3.op_div. simpl.
  apply sqrt_lem_1.
  - assert (0 < / s) by now apply Rinv_0_lt_compat.
    unfold Rdiv. nra.
  - apply Rmult_le_pos; [apply length_nonneg |].
    left. now apply Rinv_0_lt_compat.
  - transitivity (Vector3.length p * Vector3.length p / (s * s));
      [field; lra |].
    rewrite length_squared. unfold Vector3.lengthSquared. field. lra.
Qed.

(** X19. Transforms of the sphere: translating the unit-centred sphere by
    [c] gives the sphere centred at [c], and scaling it uniformly by
    [s > 0] gives the sphere of radius [r * s] with its true distance. *)
Theorem X19_sphere_translate_scale (r s : R) (c : Vector3.t)
    (points : list Vector3.t) (Hs : 0 < s) :
  SDF3.evaluate (Operations.translate (Primitives.sphere_r r) c) points
    = SDF3.evaluate (Primitives.sphere r c) points /\
  SDF3.evaluate (Operations.scale (Primitives.sphere_r r) s) points
    = SDF3.evaluate (Primitives.sphere_r (r * s)) points.
Proof.
  unfold SDF3.evaluate, Operations.translate, Operations.scale,
    SDF3.getFunction, Primitives.sphere_r, Primitives.sphere,
    SDF3.of_function, SDF3.wrapFunction.
  cbn [SDF3.vecFunc_ SDF3.of_vector bind]. unfold ORIGIN.
  split; f_equal; rewrite !map_map; apply map_ext; intros p.
  - now rewrite vec_sub_zero.
  - rewrite !vec_sub_zero, length_div by exact Hs. field. lra.
Qed.

Lemma X19_sphere_translate_scale_witness :
  0 < 2 /\
  SDF3.evaluate (Operations.scale (Primitives.sphere_r 1) 2) [ORIGIN]
    = SDF3.evaluate (Primitives.sphere_r (1 * 2)) [ORIGIN].
Proof.
  assert (H : 0 < 2) by lra.
  split; [exact H |].
  exact (proj2 (X19_sphere_translate_scale 1 2 ORIGIN [ORIGIN] H)).
Defined.

(** X20. A rounded box is a smaller box dilated by the radius:
    [roundedBox(size, r)] answers as [dilate(box(size - 2r), r)]. *)
Theorem X20_rounded_box_is_dilated_box (size : Vector3.t) (radius : R)
    (points : list Vector3.t) :
  SDF3.evaluate (Primitives.roundedBox size radius) points
  = SDF3.evaluate
      (Operations.dilate
         (Primitives.box_s (size - Vector3.splat (2 * radius))%vec) radius)
      points.
Proof.
  unfold SDF3.evaluate, Operations.dilate, SDF3.getFunction,
    Primitives.roundedBox, Primitives.box_s, Primitives.box,
    SDF3.of_function, SDF3.wrapFunction.
  cbn [SDF3.vecFunc_ SDF3.of_vector bind]. unfold ORIGIN.
  f_equal. rewrite map_map. apply map_ext. intros p.
  rewrite vec_sub_zero. f_equal. f_equal.
  unfold Vector3.op_sub, Vector3.op_mul, Vector3.splat. simpl.
  f_equal; lra.
Qed.

Lemma slab_axis (lo hi v : R) :
  0 <= std_max (std_max (lo - v) (v - hi)) 0 /\
  (std_max (std_max (lo - v) (v - hi)) 0 = 0 <-> lo <= v <= hi).
Proof.
  destruct (std_max_cases (lo - v) (v - hi)) as [[-> ?] | [-> ?]];
    match goal with
    | |- context [std_max ?a 0] =>
        destruct (std_max_cases a 0) as [[-> ?] | [-> ?]]
    end; split; try lra; split; intros; lra.
Qed.

Lemma slab_inner_zero (lo hi v : R) :
  lo <= v <= hi ->
  (if Rge_dec v lo then
     if Rle_dec v hi then 0 else std_min (Rabs (lo - v)) (Rabs (hi - v))
   else std_min (Rabs (lo - v)) (Rabs (hi - v))) = 0.
Proof.
  intros [H1 H2]. destruct (Rge_dec v lo); [| lra].
  destruct (Rle_dec v hi); [reflexivity | lra].
Qed.

(** X21. The slab field is never negative: it is 0 at every point of the
    closed box [x0..x1] x [y0..y1] x [z0..z1], the interior included, and
    positive outside. *)
Theorem X21_slab_never_negative (x0 x1 y0 y1 z0 z1 : R) (p : Vector3.t) :
  exists d,
    SDF3.op_call (Primitives.slab x0 x1 y0 y1 z0 z1) p = Some d /\
    0 <= d /\
    (d = 0 <->
     x0 <= Vector3.x p <= x1 /\
     y0 <= Vector3.y p <= y1 /\
     z0 <= Vector3.z p <= z1).
Proof.
  eexists. split; [reflexivity |].
  destruct p as [px py pz]. cbn [Vector3.x Vector3.y Vector3.z].
  destruct (slab_axis x0 x1 px) as [Hdx Hzx].
  destruct (slab_axis y0 y1 py) as [Hdy Hzy].
  destruct (slab_axis z0 z1 pz) as [Hdz Hzz].
  set (dx := std_max (std_max (x0 - px) (px - x1)) 0) in *.
  set (dy := std_max (std_max (y0 - py) (py - y1)) 0) in *.
  set (dz := std_max (std_max (z0 - pz) (pz - z1)) 0) in *.
  assert (HS : 0 <= dx * dx + dy * dy + dz * dz) by nra.
  destruct (Rgt_dec (sqrt (dx * dx + dy * dy + dz * dz)) 0) as [Hext | Hext].
  - split; [lra |]. split; [lra |].
    intros (Hx & Hy & Hz). exfalso.
    apply Hzx in Hx. apply Hzy in Hy. apply Hzz in Hz.
    rewrite Hx, Hy, Hz in Hext.
    replace (0 * 0 + 0 * 0 + 0 * 0) with 0 in Hext by ring.
    rewrite sqrt_0 in Hext. lra.
  - assert (E : sqrt (dx * dx + dy * dy + dz * dz) = 0).
    { pose proof (sqrt_pos (dx * dx + dy * dy + dz * dz)). lra. }
    apply sqrt_eq_0 in E; [| exact HS].
    assert (Ex : dx = 0) by nra.
    assert (Ey : dy = 0) by nra.
    assert (Ez : dz = 0) by nra.
    apply Hzx in Ex. apply Hzy in Ey. apply Hzz in Ez.
    rewrite (slab_inner_zero x0 x1 px Ex), (slab_inner_zero y0 y1 py Ey),
      (slab_inner_zero z0 z1 pz Ez).
    assert (Em : - std_min (std_min 0 0) 0 = 0).
    { unfold std_min. destruct (Rlt_dec 0 0); [lra |].
      destruct (Rlt_dec 0 0); lra. }
    rewrite Em. split; [lra |]. split; [intros _ | reflexivity].
    repeat split; lra.
Qed.

(** X22. The plane field: the default plane measures the height [p.z]; a
    plane whose normal is shorter than [1e-10] is not rejected and is 0
    at every point. *)
Theorem X22_plane_default_and_zero_normal (normal point p : Vector3.t)
    (Hn : Vector3.length normal < 1e-10) :
  SDF3.op_call Primitives.plane_default p = Some (Vector3.z p) /\
  SDF3.op_call (Primitives.plane normal point) p = Some 0.
Proof.
  split.
  - unfold SDF3.op_call, Primitives.plane_default, Primitives.plane,
      SDF3.of_function, SDF3.wrapFunction.
    cbn [SDF3.vecFunc_ map bind]. unfold Z_axis.
    assert (H1 : 1e-10 <= 1) by lra.
    rewrite (proj1 (normalized_along_z 1 H1)).
    unfold ORIGIN. rewrite vec_sub_zero. unfold Vector3.dot. simpl.
    f_equal. ring.
  - unfold SDF3.op_call, Primitives.plane, SDF3.of_function,
      SDF3.wrapFunction.
    cbn [SDF3.vecFunc_ map bind].
    rewrite (normalized_short normal Hn). unfold Vector3.dot. simpl.
    f_equal. ring.
Qed.

Lemma X22_plane_default_and_zero_normal_witness :
  Vector3.length (Vector3.mk 0 0 0) < 1e-10 /\
  SDF3.op_call (Primitives.plane (Vector3.mk 0 0 0) ORIGIN)
    (Vector3.mk 1 2 3) = Some 0.
Proof.
  assert (H : Vector3.length (Vector3.mk 0 0 0) < 1e-10)
    by (rewrite length_zero; lra).
  split; [exact H |].
  exact (proj2 (X22_plane_default_and_zero_normal (Vector3.mk 0 0 0) ORIGIN
                  (Vector3.mk 1 2 3) H)).
Defined.

(** * Properties of Marching Cubes *)

(** X23. The cube index of a cell is an 8-bit number whose bit [i] is set
    exactly when corner value [i] is below the level; it is 0 exactly when
    no corner is below the level and 255 exactly when all are. *)
Theorem X23_cube_index_bits (v0 v1 v2 v3 v4 v5 v6 v7 level : R) :
  let cubeIndex :=
    MarchingCubes.cubeIndexFrom [v0; v1; v2; v3; v4; v5; v6; v7] level 0 0 in
  (0 <= cubeIndex <= 255)%Z /\
  (Z.testbit cubeIndex 0 = true <-> v0 < level) /\
  (Z.testbit cubeIndex 1 = true <-> v1 < level) /\
  (Z.testbit cubeIndex 2 = true <-> v2 < level) /\
  (Z.testbit cubeIndex 3 = true <-> v3 < level) /\
  (Z.testbit cubeIndex 4 = true <-> v4 < level) /\
  (Z.testbit cubeIndex 5 = true <-> v5 < level) /\
  (Z.testbit cubeIndex 6 = true <-> v6 < level) /\
  (Z.testbit cubeIndex 7 = true <-> v7 < level) /\
  (cubeIndex = 0%Z <->
   ~ v0 < level /\ ~ v1 < level /\ ~ v2 < level /\ ~ v3 < level /\
   ~ v4 < level /\ ~ v5 < level /\ ~ v6 < level /\ ~ v7 < level) /\
  (cubeIndex = 255%Z <->
   v0 < level /\ v1 < level /\ v2 < level /\ v3 < level /\
   v4 < level /\ v5 < level /\ v6 < level /\ v7 < level).
Proof.
  cbn [MarchingCubes.cubeIndexFrom]. cbv zeta.
  destruct (Rlt_dec v0 level); destruct (Rlt_dec v1 level);
    destruct (Rlt_dec v2 level); destruct (Rlt_dec v3 level);
    destruct (Rlt_dec v4 level); destruct (Rlt_dec v5 level);
    destruct (Rlt_dec v6 level); destruct (Rlt_dec v7 level);
    cbn;
    (split; [lia |]);
    repeat split; intros; try assumption; try reflexivity;
      try discriminate; try tauto.
Qed.

Lemma emitTriangles_triples (row : list Z) (edgeVertices : list Vector3.t) :
  forall (fuel i : nat) (triangles : list Vector3.t),
    MarchingCubes.emitTriangles fuel row edgeVertices i = Some triangles ->
    exists n, List.length triangles = (3 * n)%nat.
Proof.
  induction fuel as [| fuel IH]; intros i triangles H; [discriminate |].
  cbn [MarchingCubes.emitTriangles] in H.
  destruct (at_ row i) as [t0 |]; [| discriminate]. cbn [bind] in H.
  destruct (t0 =? -1)%Z.
  { injection H as <-. now exists 0%nat. }
  destruct (MarchingCubes.edgeVertex edgeVertices t0) as [w0 |];
    [| discriminate].
  cbn [bind] in H.
  destruct (at_ row (i + 1)) as [t1 |]; [| discriminate]. cbn [bind] in H.
  destruct (MarchingCubes.edgeVertex edgeVertices t1) as [w1 |];
    [| discriminate].
  cbn [bind] in H.
  destruct (at_ row (i + 2)) as [t2 |]; [| discriminate]. cbn [bind] in H.
  destruct (MarchingCubes.edgeVertex edgeVertices t2) as [w2 |];
    [| discriminate].
  cbn [bind] in H.
  destruct (MarchingCubes.emitTriangles fuel row edgeVertices (i + 3))
    as [rest |] eqn:Hrest; [| discriminate].
  cbn [bind] in H. injection H as <-.
  destruct (IH _ _ Hrest) as [n Hn].
  exists (S n). simpl. rewrite Hn. lia.
Qed.

Lemma appendAll_triples {A : Type} (body : A -> option (list Vector3.t)) :
  (forall a out, body a = Some out ->
                 exists n, List.length out = (3 * n)%nat) ->
  forall (l : list A) (out : list Vector3.t),
    MarchingCubes.appendAll body l = Some out ->
    exists n, List.length out = (3 * n)%nat.
Proof.
  intros Hbody. induction l as [| a rest IH]; intros out H.
  - injection H as <-. now exists 0%nat.
  - cbn [MarchingCubes.appendAll] in H.
    destruct (body a) as [here |] eqn:Hhere; [| discriminate].
    cbn [bind] in H.
    destruct (MarchingCubes.appendAll body rest) as [after |] eqn:Hafter;
      [| discriminate].
    cbn [bind] in H. injection H as <-.
    destruct (Hbody a here Hhere) as [n Hn].
    destruct (IH after eq_refl) as [m Hm].
    exists (n + m)%nat. rewrite length_app, Hn, Hm. lia.
Qed.

Lemma cell_triples (volume : list R) (dims : MarchingCubes.dims_t)
    (level : R) (x y z : Z) (out : list Vector3.t) :
  MarchingCubes.cell volume dims level x y z = Some out ->
  exists n, List.length out = (3 * n)%nat.
Proof.
  unfold MarchingCubes.cell. intros H.
  repeat match type of H with
         | bind ?m _ = Some _ =>
             destruct m; [cbn [bind] in H | discriminate]
         end.
  match type of H with
  | (if ?c then _ else _) = _ => destruct c
  end.
  - injection H as <-. now exists 0%nat.
  - match type of H with
    | bind ?m _ = Some _ => destruct m; [cbn [bind] in H | discriminate]
    end.
    now apply emitTriangles_triples in H.
Qed.

(** X24. Whenever [extractSurface] has a result, it is a whole number of
    triangles: the number of vertices it returns is a multiple of 3. *)
Theorem X24_extractSurface_whole_triangles (volume : list R)
    (dims : MarchingCubes.dims_t) (level : R) (triangles : list Vector3.t)
    (H : MarchingCubes.extractSurface volume dims level = Some triangles) :
  exists n, List.length triangles = (3 * n)%nat.
Proof.
  unfold MarchingCubes.extractSurface in H.
  revert H. apply appendAll_triples. intros z outz.
  apply appendAll_triples. intros y outy.
  apply appendAll_triples. intros x outx.
  apply cell_triples.
Qed.

Lemma emitTriangles_row_1 (e0 e1 e2 e3 e4 e5 e6 e7 e8 e9 e10 e11 : Vector3.t) :
  MarchingCubes.emitTriangles 17
    [0; 8; 3; -1; -1; -1; -1; -1; -1; -1; -1; -1; -1; -1; -1; -1]%Z
    [e0; e1; e2; e3; e4; e5; e6; e7; e8; e9; e10; e11] 0
  = Some [e0; e8; e3].
Proof. reflexivity. Qed.

(** One corner below the level: the 2x2x2 volume with only corner 0 inside
    gives the one triangle of table row 1, on the mid points of the three
    edges at that corner. *)
Lemma extractSurface_one_corner :
  MarchingCubes.extractSurface [-1; 1; 1; 1; 1; 1; 1; 1]
    (MarchingCubes.Dims 2 2 2) 0
  = Some [Vector3.mk 0.5 0 0; Vector3.mk 0 0 0.5; Vector3.mk 0 0.5 0].
Proof.
  assert (Hmid : forall p1 p2,
             MarchingCubes.vertexInterp 0 p1 p2 (-1) 1
             = (p1 + (p2 - p1) *^ ((0 - -1) / (1 - -1)))%vec).
  { intros p1 p2. unfold MarchingCubes.vertexInterp.
    rewrite !Rlt_dec_false
      by (unfold Rabs; destruct (Rcase_abs _); lra).
    reflexivity. }
  assert (Hmid' : forall p1 p2,
             MarchingCubes.vertexInterp 0 p1 p2 1 (-1)
             = (p1 + (p2 - p1) *^ ((0 - 1) / (-1 - 1)))%vec).
  { intros p1 p2. unfold MarchingCubes.vertexInterp.
    rewrite !Rlt_dec_false
      by (unfold Rabs; destruct (Rcase_abs _); lra).
    reflexivity. }
  assert (Hidx : MarchingCubes.cubeIndexFrom [-1; 1; 1; 1; 1; 1; 1; 1] 0 0 0
                 = 1%Z).
  { simpl.
    rewrite !(Rlt_dec_true (-1) 0) by lra.
    rewrite !(Rlt_dec_false 1 0) by lra.
    reflexivity. }
  unfold MarchingCubes.extractSurface.
  change (MarchingCubes.range _) with [0%Z].
  cbn [MarchingCubes.appendAll].
  unfold MarchingCubes.cell.
  change (MarchingCubes.at_int [-1; 1; 1; 1; 1; 1; 1; 1]
            (MarchingCubes.getIndex 0 0 0 (MarchingCubes.Dims 2 2 2)))
    with (Some (-1)).
  cbn [bind].
  repeat match goal with
         | |- context [MarchingCubes.at_int [-1; 1; 1; 1; 1; 1; 1; 1]
                         (MarchingCubes.getIndex ?a ?b ?c ?d)] =>
             change (MarchingCubes.at_int [-1; 1; 1; 1; 1; 1; 1; 1]
                       (MarchingCubes.getIndex a b c d)) with (Some 1);
             cbn [bind]
         end.
  rewrite Hidx.
  change ((1 =? 0)%Z || (1 =? 255)%Z) with false. cbv iota.
  change (MarchingCubes.at_int MarchingCubes.triTable 1)
    with (Some [0; 8; 3; -1; -1; -1; -1; -1; -1; -1; -1; -1; -1; -1; -1; -1]%Z).
  cbn [bind List.length].
  rewrite emitTriangles_row_1. cbn [bind app].
  rewrite !Hmid, Hmid'.
  unfold Vector3.op_add, Vector3.op_sub, Vector3.op_mul. simpl.
  f_equal. repeat (f_equal; try lra).
Qed.

Lemma X24_extractSurface_whole_triangles_witness :
  exists n,
    List.length
      [Vector3.mk 0.5 0 0; Vector3.mk 0 0 0.5; Vector3.mk 0 0.5 0]
    = (3 * n)%nat.
Proof.
  exact (X24_extractSurface_whole_triangles
           [-1; 1; 1; 1; 1; 1; 1; 1] (MarchingCubes.Dims 2 2 2) 0
           [Vector3.mk 0.5 0 0; Vector3.mk 0 0 0.5; Vector3.mk 0 0.5 0]
           extractSurface_one_corner).
Defined.

Lemma in_range (n x : Z) : In x (MarchingCubes.range n) -> (0 <= x < n)%Z.
Proof.
  unfold MarchingCubes.range. intros H.
  apply in_map_iff in H. destruct H as [k [<- Hk]].
  apply in_seq in Hk. lia.
Qed.

Lemma appendAll_nothing {A B : Type} (body : A -> option (list B))
    (l : list A) :
  (forall a, In a l -> body a = Some []) ->
  MarchingCubes.appendAll body l = Some [].
Proof.
  induction l as [| a rest IH]; intros H; [reflexivity |].
  cbn [MarchingCubes.appendAll].
  rewrite (H a) by now left. cbn [bind].
  rewrite IH by (intros b Hb; apply H; now right). reflexivity.
Qed.

Lemma at_int_inside {A : Type} (v : list A) (i : Z) :
  (0 <= i < Z.of_nat (List.length v))%Z ->
  exists a, MarchingCubes.at_int v i = Some a /\ In a v.
Proof.
  intros H. unfold MarchingCubes.at_int.
  destruct (Z.ltb_spec i 0); [lia |].
  destruct (nth_error v (Z.to_nat i)) as [a |] eqn:E.
  - exists a. split; [reflexivity | now apply nth_error_In in E].
  - apply nth_error_None in E. lia.
Qed.

Lemma getIndex_inside (dims : MarchingCubes.dims_t) (x y z : Z) :
  (0 <= x < MarchingCubes.d0 dims)%Z ->
  (0 <= y < MarchingCubes.d1 dims)%Z ->
  (0 <= z < MarchingCubes.d2 dims)%Z ->
  (0 <= MarchingCubes.getIndex x y z dims
   < MarchingCubes.d0 dims * MarchingCubes.d1 dims * MarchingCubes.d2 dims)%Z.
Proof.
  unfold MarchingCubes.getIndex. intros Hx Hy Hz.
  set (a := MarchingCubes.d0 dims) in *.
  set (b := MarchingCubes.d1 dims) in *.
  set (c := MarchingCubes.d2 dims) in *.
  assert (Hab : (0 <= a * b)%Z) by (apply Z.mul_nonneg_nonneg; lia).
  assert (H1 : (0 <= y * a)%Z) by (apply Z.mul_nonneg_nonneg; lia).
  assert (H2 : (0 <= z * (a * b))%Z) by (apply Z.mul_nonneg_nonneg; lia).
  assert (H3 : (y * a <= (b - 1) * a)%Z)
    by (apply Z.mul_le_mono_nonneg_r; lia).
  assert (H4 : (z * (a * b) <= (c - 1) * (a * b))%Z)
    by (apply Z.mul_le_mono_nonneg_r; lia).
  replace (z * a * b)%Z with (z * (a * b))%Z by ring.
  replace (a * b * c)%Z with ((c - 1) * (a * b) + (b - 1) * a + a)%Z by ring.
  lia.
Qed.

Lemma cubeIndex_none_below (v0 v1 v2 v3 v4 v5 v6 v7 level : R) :
  Forall (fun v => ~ v < level) [v0; v1; v2; v3; v4; v5; v6; v7] ->
  MarchingCubes.cubeIndexFrom [v0; v1; v2; v3; v4; v5; v6; v7] level 0 0 = 0%Z.
Proof.
  intros H. repeat match goal with
                   | H : Forall _ (_ :: _) |- _ => inversion H; clear H; subst
                   end.
  cbn [MarchingCubes.cubeIndexFrom].
  rewrite !Rlt_dec_false by assumption. reflexivity.
Qed.

Lemma cubeIndex_all_below (v0 v1 v2 v3 v4 v5 v6 v7 level : R) :
  Forall (fun v => v < level) [v0; v1; v2; v3; v4; v5; v6; v7] ->
  MarchingCubes.cubeIndexFrom [v0; v1; v2; v3; v4; v5; v6; v7] level 0 0
  = 255%Z.
Proof.
  intros H. repeat match goal with
                   | H : Forall _ (_ :: _) |- _ => inversion H; clear H; subst
                   end.
  cbn [MarchingCubes.cubeIndexFrom].
  rewrite !Rlt_dec_true by assumption. reflexivity.
Qed.

Lemma cell_uniform (volume : list R) (dims : MarchingCubes.dims_t)
    (level : R) (x y z : Z) (P : R -> Prop) :
  (MarchingCubes.d0 dims * MarchingCubes.d1 dims * MarchingCubes.d2 dims
   <= Z.of_nat (List.length volume))%Z ->
  (0 <= x < MarchingCubes.d0 dims - 1)%Z ->
  (0 <= y < MarchingCubes.d1 dims - 1)%Z ->
  (0 <= z < MarchingCubes.d2 dims - 1)%Z ->
  Forall P volume ->
  (forall v0 v1 v2 v3 v4 v5 v6 v7,
      Forall P [v0; v1; v2; v3; v4; v5; v6; v7] ->
      let c := MarchingCubes.cubeIndexFrom
                 [v0; v1; v2; v3; v4; v5; v6; v7] level 0 0 in
      (c = 0 \/ c = 255)%Z) ->
  MarchingCubes.cell volume dims level x y z = Some [].
Proof.
  intros Hsize Hx Hy Hz HP Hidx. rewrite Forall_forall in HP.
  assert (Hat : forall a b c,
             (0 <= a < MarchingCubes.d0 dims)%Z ->
             (0 <= b < MarchingCubes.d1 dims)%Z ->
             (0 <= c < MarchingCubes.d2 dims)%Z ->
             exists v,
               MarchingCubes.at_int volume (MarchingCubes.getIndex a b c dims)
               = Some v /\ P v).
  { intros a b c Ha Hb Hc.
    pose proof (getIndex_inside dims a b c Ha Hb Hc).
    destruct (at_int_inside volume (MarchingCubes.getIndex a b c dims))
      as [v [Hv Hin]]; [lia |].
    exists v. split; [exact Hv | now apply HP]. }
  unfold MarchingCubes.cell.
  destruct (Hat x y z) as [v0 [-> P0]]; try lia.
  destruct (Hat (x + 1)%Z y z) as [v1 [-> P1]]; try lia.
  destruct (Hat (x + 1)%Z (y + 1)%Z z) as [v2 [-> P2]]; try lia.
  destruct (Hat x (y + 1)%Z z) as [v3 [-> P3]]; try lia.
  destruct (Hat x y (z + 1)%Z) as [v4 [-> P4]]; try lia.
  destruct (Hat (x + 1)%Z y (z + 1)%Z) as [v5 [-> P5]]; try lia.
  destruct (Hat (x + 1)%Z (y + 1)%Z (z + 1)%Z) as [v6 [-> P6]]; try lia.
  destruct (Hat x (y + 1)%Z (z + 1)%Z) as [v7 [-> P7]]; try lia.
  cbn [bind].
  destruct (Hidx v0 v1 v2 v3 v4 v5 v6 v7) as [E | E];
    [repeat constructor; assumption | |]; rewrite E; reflexivity.
Qed.

(** X25. A volume without a sign change gives no triangle: when the volume
    holds at least [d0 * d1 * d2] values and none of them is below the
    level, or all of them are, [extractSurface] reads inside the volume
    only and returns the empty list. *)
Theorem X25_uniform_volume_no_triangles (volume : list R)
    (dims : MarchingCubes.dims_t) (level : R)
    (Hsize : (MarchingCubes.d0 dims * MarchingCubes.d1 dims
              * MarchingCubes.d2 dims <= Z.of_nat (List.length volume))%Z)
    (Hsign : Forall (fun v => ~ v < level) volume \/
             Forall (fun v => v < level) volume) :
  MarchingCubes.extractSurface volume dims level = Some [].
Proof.
  unfold MarchingCubes.extractSurface.
  apply appendAll_nothing. intros z Hz. apply in_range in Hz.
  apply appendAll_nothing. intros y Hy. apply in_range in Hy.
  apply appendAll_nothing. intros x Hx. apply in_range in Hx.
  destruct Hsign as [Hs | Hs].
  - apply (cell_uniform volume dims level x y z (fun v => ~ v < level));
      try assumption.
    intros. left. now apply cubeIndex_none_below.
  - apply (cell_uniform volume dims level x y z (fun v => v < level));
      try assumption.
    intros. right. now apply cubeIndex_all_below.
Qed.

Lemma X25_uniform_volume_no_triangles_witness :
  MarchingCubes.extractSurface [1; 1; 1; 1; 1; 1; 1; 1]
    (MarchingCubes.Dims 2 2 2) 0 = Some [].
Proof.
  apply X25_uniform_volume_no_triangles.
  - simpl. lia.
  - left. repeat constructor; lra.
Defined.

Lemma vec_convex_0 (p1 p2 : Vector3.t) : (p1 + (p2 - p1) *^ 0)%vec = p1.
Proof.
  destruct p1, p2. unfold Vector3.op_add, Vector3.op_sub, Vector3.op_mul.
  simpl. f_equal; ring.
Qed.

Lemma vec_convex_1 (p1 p2 : Vector3.t) : (p1 + (p2 - p1) *^ 1)%vec = p2.
Proof.
  destruct p1, p2. unfold Vector3.op_add, Vector3.op_sub, Vector3.op_mul.
  simpl. f_equal; ring.
Qed.

(** X26. When the level lies between the two corner values, the vertex that
    [vertexInterp] returns lies on the edge: it is [p1 + (p2 - p1) * mu]
    for some [mu] between 0 and 1. *)
Theorem X26_vertexInterp_on_edge (iso : R) (p1 p2 : Vector3.t) (v1 v2 : R)
    (Hbetween : Rmin v1 v2 <= iso <= Rmax v1 v2) :
  exists mu,
    0 <= mu <= 1 /\
    MarchingCubes.vertexInterp iso p1 p2 v1 v2 = (p1 + (p2 - p1) *^ mu)%vec.
Proof.
  unfold MarchingCubes.vertexInterp.
  destruct (Rlt_dec (Rabs (iso - v1)) 1e-10).
  { exists 0. split; [lra | now rewrite vec_convex_0]. }
  destruct (Rlt_dec (Rabs (iso - v2)) 1e-10).
  { exists 1. split; [lra | now rewrite vec_convex_1]. }
  destruct (Rlt_dec (Rabs (v1 - v2)) 1e-10) as [| Hne].
  { exists 0. split; [lra | now rewrite vec_convex_0]. }
  exists ((iso - v1) / (v2 - v1)). split; [| reflexivity].
  assert (Hd : v2 - v1 <> 0).
  { intros E. apply Hne. replace (v1 - v2) with (- (v2 - v1)) by ring.
    rewrite E, Ropp_0, Rabs_R0. lra. }
  revert Hbetween. unfold Rmin, Rmax. destruct (Rle_dec v1 v2); intros [Hlo Hhi].
  - assert (0 < v2 - v1) by lra.
    split.
    + apply Rmult_le_pos; [lra | left; now apply Rinv_0_lt_compat].
    + apply (Rmult_le_reg_r (v2 - v1)); [assumption |].
      unfold Rdiv. rewrite Rmult_assoc, Rinv_l by exact Hd. lra.
  - assert (0 < v1 - v2) by lra.
    replace ((iso - v1) / (v2 - v1)) with ((v1 - iso) / (v1 - v2))
      by (field; lra).
    split.
    + apply Rmult_le_pos; [lra | left; now apply Rinv_0_lt_compat].
    + apply (Rmult_le_reg_r (v1 - v2)); [assumption |].
      unfold Rdiv. rewrite Rmult_assoc, Rinv_l by lra. lra.
Qed.

Lemma X26_vertexInterp_on_edge_witness :
  Rmin (-1) 1 <= 0 <= Rmax (-1) 1 /\
  exists mu,
    0 <= mu <= 1 /\
    MarchingCubes.vertexInterp 0 ORIGIN (Vector3.mk 1 0 0) (-1) 1
    = (ORIGIN + (Vector3.mk 1 0 0 - ORIGIN) *^ mu)%vec.
Proof.
  assert (H : Rmin (-1) 1 <= 0 <= Rmax (-1) 1).
  { rewrite Rmin_left, Rmax_right by lra. lra. }
  split; [exact H |].
  exact (X26_vertexInterp_on_edge 0 ORIGIN (Vector3.mk 1 0 0) (-1) 1 H).
Defined.

(** * Properties of the mesh generator *)

(** Every point of an ordered box is within the batch radius of the batch
    centre. *)
Lemma box_point_within_radius (lo hi p : Vector3.t) :
  in_box lo hi p ->
  Vector3.length (p - MeshGenerator.batchCenter lo hi)%vec
  <= MeshGenerator.batchRadius lo hi.
Proof.
  intros ((Hx1 & Hx2) & (Hy1 & Hy2) & (Hz1 & Hz2)).
  unfold MeshGenerator.batchRadius, MeshGenerator.batchCenter.
  set (r := Vector3.length (hi - lo)%vec / 2).
  assert (Hr : 0 <= r).
  { unfold r. pose proof (length_nonneg (hi - lo)%vec). lra. }
  assert (Hrr : r * r = Vector3.lengthSquared (hi - lo)%vec / 4).
  { unfold r. rewrite <- length_squared. field. }
  rewrite <- (sqrt_square r) by exact Hr.
  unfold Vector3.length. apply sqrt_le_1_alt. rewrite Hrr.
  destruct lo as [lx ly lz], hi as [hx hy hz], p as [px py pz].
  unfold Vector3.lengthSquared, Vector3.op_sub, Vector3.op_add,
    Vector3.op_mul in *. simpl in *.
  nra.
Qed.

(** X27. The skip test is sound for true distance functions: when the field
    is a 1-Lipschitz point function and [canSkipBatch] answers true for an
    ordered batch box, the field has no zero anywhere in the box, so no
    surface is lost by skipping it. *)
Theorem X27_skip_sound_for_lipschitz (func : SDF3.Function)
    (batchMin batchMax : Vector3.t)
    (Hlip : lipschitz1 func)
    (Hskip : MeshGenerator.canSkipBatch (SDF3.of_function func)
               batchMin batchMax = Some true) :
  forall p, in_box batchMin batchMax p -> func p <> 0.
Proof.
  intros p Hp.
  apply canSkipBatch_decides in Hskip.
  destruct Hskip as (centerDist & values & Hc & Hr & _ & _).
  unfold SDF3.op_call, SDF3.of_function, SDF3.wrapFunction in Hc.
  cbn [SDF3.vecFunc_ map bind] in Hc. injection Hc as <-.
  pose proof (box_point_within_radius batchMin batchMax p Hp) as Hd.
  pose proof (Hlip p (MeshGenerator.batchCenter batchMin batchMax)) as Hl.
  intros E. rewrite E in Hl.
  replace (0 - func (MeshGenerator.batchCenter batchMin batchMax))
    with (- func (MeshGenerator.batchCenter batchMin batchMax)) in Hl by ring.
  rewrite Rabs_Ropp in Hl. lra.
Qed.

Lemma X27_skip_sound_for_lipschitz_witness :
  lipschitz1 (fun _ => 5) /\
  MeshGenerator.canSkipBatch (SDF3.of_function (fun _ => 5))
    (Vector3.mk 0 0 0) (Vector3.mk 1 1 1) = Some true /\
  forall p, in_box (Vector3.mk 0 0 0) (Vector3.mk 1 1 1) p ->
            (fun _ : Vector3.t => 5) p <> 0.
Proof.
  assert (Hl : lipschitz1 (fun _ => 5)).
  { intros p q. replace (5 - 5) with 0 by ring. rewrite Rabs_R0.
    apply length_nonneg. }
  assert (Hs : MeshGenerator.canSkipBatch (SDF3.of_function (fun _ => 5))
                 (Vector3.mk 0 0 0) (Vector3.mk 1 1 1) = Some true).
  { apply canSkipBatch_decides.
    exists 5, [5; 5; 5; 5; 5; 5; 5; 5].
    split; [reflexivity | split; [| split; [reflexivity |]]].
    - unfold MeshGenerator.batchRadius, Vector3.length. simpl.
      replace ((1 - 0) * (1 - 0) + (1 - 0) * (1 - 0) + (1 - 0) * (1 - 0))
        with 3 by ring.
      rewrite Rabs_pos_eq by lra. pose proof sqrt_3_lt_2. lra.
    - left. repeat constructor; lra. }
  split; [exact Hl | split; [exact Hs |]].
  exact (X27_skip_sound_for_lipschitz (fun _ => 5)
           (Vector3.mk 0 0 0) (Vector3.mk 1 1 1) Hl Hs).
Defined.

(** ** Batching *)

(** With a stride of at least 1 the strided loop ends; the values it takes
    lie in [[v, stop)] and leave no gap wider than the stride. *)
Lemma strided_covers (stop stride : Z) :
  (1 <= stride)%Z ->
  forall (fuel : nat) (v : Z),
    (stop - v <= Z.of_nat fuel)%Z ->
    exists l,
      MeshGenerator.strided fuel v stop stride = Some l /\
      (forall u, In u l -> (v <= u < stop)%Z) /\
      (forall c, (v <= c < stop)%Z ->
                 exists u, In u l /\ (u <= c < u + stride)%Z).
Proof.
  intros Hs. induction fuel as [| fuel IH]; intros v Hf.
  - exists []. cbn [MeshGenerator.strided].
    destruct (Z.ltb_spec v stop); [lia |].
    split; [reflexivity | split; [intros u [] | intros c Hc; lia]].
  - cbn [MeshGenerator.strided].
    destruct (Z.ltb_spec v stop) as [Hlt | Hge].
    + destruct (IH (v + stride)%Z) as [l [Hl [Hin Hcov]]]; [lia |].
      exists (v :: l). rewrite Hl. cbn [bind].
      split; [reflexivity | split].
      * intros u [<- | Hu]; [lia |]. apply Hin in Hu. lia.
      * intros c Hc. destruct (Z_lt_dec c (v + stride)) as [Hc' | Hc'].
        -- exists v. split; [now left | lia].
        -- destruct (Hcov c) as [u [Hu Hb]]; [lia |].
           exists u. split; [now right | exact Hb].
    + exists []. split; [reflexivity | split; [intros u [] | intros c Hc; lia]].
Qed.


Lemma appendAll_flat_map {A B : Type} (body : A -> option (list B))
    (g : A -> list B) (l : list A) :
  (forall a, In a l -> body a = Some (g a)) ->
  MarchingCubes.appendAll body l = Some (flat_map g l).
Proof.
  induction l as [| a rest IH]; intros H; [reflexivity |].
  cbn [MarchingCubes.appendAll flat_map].
  rewrite (H a) by now left. cbn [bind].
  rewrite IH by (intros b Hb; apply H; now right). reflexivity.
Qed.

(** X28. With [batchSize >= 1] the batch loops end and tile the cell grid:
    every batch is a non-empty block of at most [batchSize] cells per axis
    inside the grid, and every cell of the grid lies in some batch. *)
Theorem X28_batches_tile_the_grid (nx ny nz batchSize : Z)
    (Hsize : (1 <= batchSize)%Z) :
  exists batches,
    MeshGenerator.createBatches nx ny nz batchSize = Some batches /\
    (forall b, In b batches ->
       (0 <= MeshGenerator.bx0 b < MeshGenerator.bx1 b)%Z /\
       (MeshGenerator.bx1 b <= nx - 1)%Z /\
       (MeshGenerator.bx1 b - MeshGenerator.bx0 b <= batchSize)%Z /\
       (0 <= MeshGenerator.by0 b < MeshGenerator.by1 b)%Z /\
       (MeshGenerator.by1 b <= ny - 1)%Z /\
       (MeshGenerator.by1 b - MeshGenerator.by0 b <= batchSize)%Z /\
       (0 <= MeshGenerator.bz0 b < MeshGenerator.bz1 b)%Z /\
       (MeshGenerator.bz1 b <= nz - 1)%Z /\
       (MeshGenerator.bz1 b - MeshGenerator.bz0 b <= batchSize)%Z) /\
    (forall x y z,
       (0 <= x < nx - 1)%Z -> (0 <= y < ny - 1)%Z -> (0 <= z < nz - 1)%Z ->
       exists b,
         In b batches /\
         (MeshGenerator.bx0 b <= x < MeshGenerator.bx1 b)%Z /\
         (MeshGenerator.by0 b <= y < MeshGenerator.by1 b)%Z /\
         (MeshGenerator.bz0 b <= z < MeshGenerator.bz1 b)%Z).
Proof.
  destruct (strided_covers (nz - 1) batchSize Hsize (Z.to_nat nz) 0)
    as [zs [Hzs [Hzin Hzcov]]]; [lia |].
  destruct (strided_covers (ny - 1) batchSize Hsize (Z.to_nat ny) 0)
    as [ys [Hys [Hyin Hycov]]]; [lia |].
  destruct (strided_covers (nx - 1) batchSize Hsize (Z.to_nat nx) 0)
    as [xs [Hxs [Hxin Hxcov]]]; [lia |].
  set (mk := fun z y x =>
               MeshGenerator.Batch x (Z.min (x + batchSize) (nx - 1))
                 y (Z.min (y + batchSize) (ny - 1))
                 z (Z.min (z + batchSize) (nz - 1))).
  exists (flat_map (fun z => flat_map (fun y => map (mk z y) xs) ys) zs).
  split; [| split].
  - unfold MeshGenerator.createBatches. rewrite Hzs. cbn [bind].
    apply appendAll_flat_map. intros z _. rewrite Hys. cbn [bind].
    apply appendAll_flat_map. intros y _. rewrite Hxs. reflexivity.
  - intros b Hb.
    apply in_flat_map in Hb. destruct Hb as [z [Hz Hb]].
    apply in_flat_map in Hb. destruct Hb as [y [Hy Hb]].
    apply in_map_iff in Hb. destruct Hb as [x [<- Hx]].
    apply Hzin in Hz. apply Hyin in Hy. apply Hxin in Hx.
    unfold mk. simpl. lia.
  - intros x y z Hx Hy Hz.
    destruct (Hxcov x) as [x0 [Hx0 Hxb]]; [lia |].
    destruct (Hycov y) as [y0 [Hy0 Hyb]]; [lia |].
    destruct (Hzcov z) as [z0 [Hz0 Hzb]]; [lia |].
    exists (mk z0 y0 x0). split.
    + apply in_flat_map. exists z0. split; [exact Hz0 |].
      apply in_flat_map. exists y0. split; [exact Hy0 |].
      apply in_map. exact Hx0.
    + unfold mk. simpl. lia.
Qed.

Lemma X28_batches_tile_the_grid_witness :
  (1 <= 32)%Z /\
  exists batches,
    MeshGenerator.createBatches 100 100 100 32 = Some batches /\
    forall x y z,
      (0 <= x < 100 - 1)%Z -> (0 <= y < 100 - 1)%Z -> (0 <= z < 100 - 1)%Z ->
      exists b,
        In b batches /\
        (MeshGenerator.bx0 b <= x < MeshGenerator.bx1 b)%Z /\
        (MeshGenerator.by0 b <= y < MeshGenerator.by1 b)%Z /\
        (MeshGenerator.bz0 b <= z < MeshGenerator.bz1 b)%Z.
Proof.
  assert (H : (1 <= 32)%Z) by lia.
  split; [exact H |].
  destruct (X28_batches_tile_the_grid 100 100 100 32 H)
    as [batches [Hb [_ Hcov]]].
  exists batches. split; [exact Hb | exact Hcov].
Defined.



(** ** Work partition *)

Lemma firstn_plus {A : Type} (a b : nat) (l : list A) :
  firstn (a + b) l = firstn a l ++ firstn b (skipn a l).
Proof.
  revert l. induction a as [| a IH]; intros l; [reflexivity |].
  destruct l as [| x l]; simpl.
  - now rewrite firstn_nil.
  - now rewrite IH.
Qed.

Lemma chunks_concat {A : Type} (q : nat) (l : list A) (w : nat) :
  concat (map (fun k => firstn q (skipn (k * q) l)) (seq 0 w))
  = firstn (w * q) l.
Proof.
  induction w as [| w IH]; [reflexivity |].
  rewrite seq_S, map_app, concat_app, IH. cbn [map concat Nat.add].
  rewrite app_nil_r.
  replace (S w * q)%nat with (w * q + q)%nat by lia.
  now rewrite firstn_plus.
Qed.

(** The block of worker [k] is the [k]-th chunk of [batchesPerWorker]
    batches. *)
Lemma worker_block_is_chunk {A : Type} (l : list A) (q : Z) (k : nat) :
  (0 <= q)%Z ->
  (let start := (Z.of_nat k * q)%Z in
   let end_ := Z.min (start + q) (Z.of_nat (List.length l)) in
   if (start <? end_)%Z
   then firstn (Z.to_nat (end_ - start)) (skipn (Z.to_nat start) l)
   else [])
  = firstn (Z.to_nat q) (skipn (k * Z.to_nat q) l).
Proof.
  intros Hq. cbv zeta.
  replace (Z.to_nat (Z.of_nat k * q)) with (k * Z.to_nat q)%nat by nia.
  set (n := List.length l).
  assert (Hlen : List.length (skipn (k * Z.to_nat q) l)
                 = (n - k * Z.to_nat q)%nat) by apply length_skipn.
  destruct (Z.ltb_spec (Z.of_nat k * q)
              (Z.min (Z.of_nat k * q + q) (Z.of_nat n))) as [Hlt | Hge].
  - destruct (Z.le_ge_cases (Z.of_nat k * q + q) (Z.of_nat n)) as [H | H].
    + rewrite Z.min_l by exact H. f_equal. lia.
    + rewrite Z.min_r by lia.
      rewrite !firstn_all2; [reflexivity | |]; rewrite Hlen; nia.
  - destruct (Z.eq_dec q 0) as [-> | Hq0]; [reflexivity |].
    assert (Hk : (Z.of_nat n <= Z.of_nat k * q)%Z) by lia.
    rewrite skipn_all2 by nia. now rewrite firstn_nil.
Qed.

(** X30. The launch loop hands out every batch exactly once: for a
    positive worker count the blocks of the workers, taken in order, are
    the batch list itself.  A negative worker count is not rejected and
    launches no worker at all. *)
Theorem X30_worker_blocks_partition (batches : list MeshGenerator.batch_t)
    (workers : Z) :
  ((1 <= workers)%Z ->
   concat (MeshGenerator.workerBlocks batches workers) = batches) /\
  ((workers < 0)%Z -> MeshGenerator.workerBlocks batches workers = []).
Proof.
  split.
  - intros Hw. unfold MeshGenerator.workerBlocks, MarchingCubes.range.
    set (n := Z.of_nat (List.length batches)).
    set (q := ((n + workers - 1) / workers)%Z).
    assert (Hq : (0 <= q)%Z) by (apply Z.div_pos; lia).
    assert (Hcover : (n <= workers * q)%Z).
    { pose proof (Z.mul_div_le (n + workers - 1) workers ltac:(lia)).
      pose proof (Z.mod_pos_bound (n + workers - 1) workers ltac:(lia)).
      pose proof (Z.div_mod (n + workers - 1) workers ltac:(lia)).
      fold q in H, H1. lia. }
    rewrite map_map.
    rewrite (map_ext _ (fun k => firstn (Z.to_nat q)
                                   (skipn (k * Z.to_nat q) batches))).
    2: { intros k. now apply worker_block_is_chunk. }
    rewrite chunks_concat. apply firstn_all2. nia.
  - intros Hw. unfold MeshGenerator.workerBlocks, MarchingCubes.range.
    replace (Z.to_nat workers) with 0%nat by lia. reflexivity.
Qed.

Lemma X30_worker_blocks_partition_witness :
  concat (MeshGenerator.workerBlocks
            [MeshGenerator.Batch 0 1 0 1 0 1; MeshGenerator.Batch 1 2 0 1 0 1;
             MeshGenerator.Batch 2 3 0 1 0 1] 2)
  = [MeshGenerator.Batch 0 1 0 1 0 1; MeshGenerator.Batch 1 2 0 1 0 1;
     MeshGenerator.Batch 2 3 0 1 0 1].
Proof.
  apply (proj1 (X30_worker_blocks_partition
                  [MeshGenerator.Batch 0 1 0 1 0 1;
                   MeshGenerator.Batch 1 2 0 1 0 1;
                   MeshGenerator.Batch 2 3 0 1 0 1] 2)).
  lia.
Defined.
